(** * fs-router: the route-file parser and the router factory

    A shallow embedding of [packages/core/src/parser.ts] (the parser:
    [parseRoutes], [parseRouteFile], [loadRouteHandlers]) and of
    [packages/core/src/factory.ts] ([createRouter]).

    Runtime choices.  The parser switches between Node and Deno for its
    file-system and path primitives; we model the Deno branch of every switch
    ([pathJoin], [pathRelative], [pathResolve], [getPathSep] = "/" and the
    [file://] import path), which is written out in the source.  On a POSIX
    Node host [path.join]/[path.relative] give the same strings for the paths
    the scan builds.  A directory is given as the list of its entries in the
    order [readDirSync] lists them.  JavaScript values read from a module are
    modelled by [jsval], with JavaScript truthiness.  The logger only prints
    and is left out of the model. *)

From Stdlib Require Import String Ascii List Bool Arith ZArith Lia.
From Stdlib Require Import Sorting.Sorted Permutation.
Import ListNotations.
Open Scope string_scope.
Set Warnings "-register-all".

(** ** String primitives used by the parser *)

Definition ascii_eqb (a b : ascii) : bool := Ascii.eqb a b.

(** [s.startsWith(pre)] *)
Definition startsWith (pre s : string) : bool := String.prefix pre s.

Fixpoint list_prefix (a b : list ascii) : bool :=
  match a, b with
  | [], _ => true
  | x :: a', y :: b' => ascii_eqb x y && list_prefix a' b'
  | _ :: _, [] => false
  end.

(** [s.endsWith(suf)]: the reversed [suf] is a prefix of the reversed [s]. *)
Definition endsWith (suf s : string) : bool :=
  list_prefix (rev (list_ascii_of_string suf)) (rev (list_ascii_of_string s)).

(** [s.split(c)] for a one-character separator (JavaScript semantics:
    [''.split('/')] is [['']], empty pieces are kept). *)
Fixpoint split_on (c : ascii) (s : string) : list string :=
  match s with
  | EmptyString => [""]
  | String x r =>
      let parts := split_on c r in
      if ascii_eqb x c then "" :: parts
      else match parts with
           | p :: ps => String x p :: ps
           | [] => [String x ""]
           end
  end.

(** [l.join(sep)] *)
Definition join (sep : string) (l : list string) : string := String.concat sep l.

(** [s.replace(/\/+/g, '/')]: every run of slashes becomes one slash. *)
Fixpoint collapse_aux (prev_slash : bool) (s : string) : string :=
  match s with
  | EmptyString => EmptyString
  | String x r =>
      if ascii_eqb x "/"%char then
        if prev_slash then collapse_aux true r
        else String "/"%char (collapse_aux true r)
      else String x (collapse_aux false r)
  end.

Definition collapse_slashes (s : string) : string := collapse_aux false s.

(** [s.includes(sub)] *)
Fixpoint includes (sub s : string) : bool :=
  startsWith sub s ||
  match s with
  | EmptyString => false
  | String _ r => includes sub r
  end.

(** [s.slice(a, -1)] *)
Definition slice_to_last (a : nat) (s : string) : string :=
  substring a (String.length s - 1 - a) s.

(** [s.replace(re, '')] for a regular expression [re] anchored with [$] at
    a fixed literal suffix: the suffix is removed if present. *)
Definition replace_suffix (suf s : string) : string :=
  if endsWith suf s then substring 0 (String.length s - String.length suf) s
  else s.

(** [s.replace(/\.ext\.(ts|js)$/, '')] *)
Definition replace_ext_suffix (stem s : string) : string :=
  if endsWith (stem ++ "ts") s then replace_suffix (stem ++ "ts") s
  else replace_suffix (stem ++ "js") s.

(** [str.repeat(n)] *)
Fixpoint repeat_str (s : string) (n : nat) : string :=
  match n with 0 => "" | S k => s ++ repeat_str s k end.

(** ** Path primitives (Deno branch of each runtime switch) *)

(** [pathJoin(a, b)]: [paths.join('/').replace(/\/+/g, '/')] *)
Definition pathJoin (a b : string) : string :=
  collapse_slashes (join "/" [a; b]).

(** the [while] loop of [pathRelative]: length of the common prefix *)
Fixpoint common_prefix (a b : list string) : nat :=
  match a, b with
  | x :: a', y :: b' => if String.eqb x y then S (common_prefix a' b') else 0
  | _, _ => 0
  end.

(** [pathRelative(from, to)] *)
Definition pathRelative (from to : string) : string :=
  let fromParts := split_on "/"%char from in
  let toParts := split_on "/"%char to in
  let i := common_prefix fromParts toParts in
  let upCount := length fromParts - i in
  let remainingPath := skipn i toParts in
  repeat_str "../" upCount ++ join "/" remainingPath.

(** [pathResolve(cwd, p)] *)
Definition pathResolve (cwd p : string) : string :=
  let resolved := if startsWith "/" p then p else cwd ++ "/" ++ p in
  collapse_slashes resolved.

(** [getPathSep()] *)
Definition getPathSep : ascii := "/"%char.

(** ** JavaScript values and objects *)

Inductive jsval : Type :=
| JUndefined
| JNull
| JBool (b : bool)
| JNum (z : Z)
| JStr (s : string)
| JFun (id : nat).

Definition truthy (v : jsval) : bool :=
  match v with
  | JUndefined | JNull => false
  | JBool b => b
  | JNum z => negb (Z.eqb z 0)
  | JStr s => negb (String.eqb s "")
  | JFun _ => true
  end.

(** A JavaScript object as the list of its own properties, in insertion
    order. *)
Definition object := list (string * jsval).

Fixpoint assoc (k : string) (o : object) : option jsval :=
  match o with
  | [] => None
  | (k', v) :: r => if String.eqb k k' then Some v else assoc k r
  end.

(** property read [o.k]: [undefined] for a missing property *)
Definition get (o : object) (k : string) : jsval :=
  match assoc k o with Some v => v | None => JUndefined end.

(** [k in o] *)
Definition has_key (o : object) (k : string) : bool :=
  match assoc k o with Some _ => true | None => false end.

(** ** Parsed routes (types.ts) *)

Record ParsedRoute : Type := mkRoute {
  path : string;
  pattern : string;
  paramNames : list string;
  filePath : string;
  handlers : object;
  isMiddleware : bool;
  specificMethod : option string
}.

(** ** [parseRouteFile] *)

(** The four [replace] calls of [parseRouteFile]. *)
Definition strip_route_suffix (relativePath : string) : string :=
  let s1 := replace_ext_suffix ".middleware." relativePath in
  let s2 := replace_ext_suffix ".route." s1 in
  let s3 := replace_ext_suffix "/route." s2 in
  if String.eqb s3 "route.ts" || String.eqb s3 "route.js" then "" else s3.

(** [pathPart.split(sep).filter(p => p && p !== 'index')] *)
Definition route_parts (pathPart : string) : list string :=
  filter (fun p => negb (String.eqb p "") && negb (String.eqb p "index"))
         (split_on getPathSep pathPart).

(** The character loop of [parseRouteFile]: splits a part at the dots that
    are outside brackets. *)
Fixpoint tokenize_aux (s cur : string) (inBrackets : bool) (segments : list string)
  : list string :=
  match s with
  | EmptyString =>
      if String.eqb cur "" then segments else app segments [cur]
  | String ch r =>
      if ascii_eqb ch "["%char then tokenize_aux r (cur ++ "[") true segments
      else if ascii_eqb ch "]"%char then tokenize_aux r (cur ++ "]") false segments
      else if ascii_eqb ch "."%char && negb inBrackets then
        if String.eqb cur "" then tokenize_aux r cur inBrackets segments
        else tokenize_aux r "" inBrackets (app segments [cur])
      else tokenize_aux r (cur ++ String ch "") inBrackets segments
  end.

Definition tokenize (part : string) : list string := tokenize_aux part "" false [].

Definition is_catch_all (segment : string) : bool :=
  startsWith "[..." segment && endsWith "]" segment.

Definition is_dynamic (segment : string) : bool :=
  startsWith "[" segment && endsWith "]" segment.

(** The segment loop; the boolean result is [hasCatchAll] (set just before
    the [break]). *)
Fixpoint convert_segments (segments : list string)
    (paramNames convertedParts : list string) : list string * list string * bool :=
  match segments with
  | [] => (paramNames, convertedParts, false)
  | segment :: rest =>
      if is_catch_all segment then
        (app paramNames [slice_to_last 4 segment], convertedParts, true)
      else if is_dynamic segment then
        let paramName := slice_to_last 1 segment in
        convert_segments rest (app paramNames [paramName])
                         (app convertedParts [":" ++ paramName])
      else if negb (String.eqb segment "") then
        convert_segments rest paramNames (app convertedParts [segment])
      else convert_segments rest paramNames convertedParts
  end.

(** The part loop, with [if (hasCatchAll) break]. *)
Fixpoint convert_parts (parts : list string)
    (paramNames convertedParts : list string) : list string * list string * bool :=
  match parts with
  | [] => (paramNames, convertedParts, false)
  | part :: rest =>
      match convert_segments (tokenize part) paramNames convertedParts with
      | (ps, cs, true) => (ps, cs, true)
      | (ps, cs, false) => convert_parts rest ps cs
      end
  end.

(** [parseRouteFile(filePath, routesDir)]; the source's [| null] result is
    never produced. *)
Definition parseRouteFile (filePath routesDir : string) : ParsedRoute :=
  let relativePath := pathRelative routesDir filePath in
  let isMw := endsWith ".middleware.ts" filePath || endsWith ".middleware.js" filePath in
  let pathPart := strip_route_suffix relativePath in
  let parts := route_parts pathPart in
  let '(paramNames, convertedParts, hasCatchAll) := convert_parts parts [] [] in
  let p0 := collapse_slashes ("/" ++ join "/" convertedParts) in
  let p := if hasCatchAll then p0 ++ "/*" else p0 in
  {| path := p; pattern := p; paramNames := paramNames; filePath := filePath;
     handlers := []; isMiddleware := isMw; specificMethod := None |}.

(** ** The directory scan of [parseRoutes] *)

Inductive entry : Type :=
| File (name : string)
| Dir (name : string) (entries : list entry).

(** the file-name test of [scanDirectory] *)
Definition qualifies (name : string) : bool :=
  endsWith ".route.ts" name || endsWith ".route.js" name ||
  endsWith ".middleware.ts" name || endsWith ".middleware.js" name ||
  String.eqb name "route.ts" || String.eqb name "route.js".

(** [scanDirectory(dir)] over the entries [readDirSync(dir)] lists; the
    routes are pushed in scan order. *)
Fixpoint scanEntry (routesDir dir : string) (e : entry) : list ParsedRoute :=
  match e with
  | File name =>
      let fullPath := pathJoin dir name in
      if qualifies name then [parseRouteFile fullPath routesDir] else []
  | Dir name entries =>
      let fullPath := pathJoin dir name in
      (fix scanDirectory (es : list entry) : list ParsedRoute :=
         match es with
         | [] => []
         | e' :: r => app (scanEntry routesDir fullPath e') (scanDirectory r)
         end) entries
  end.

Definition scanDirectory (routesDir dir : string) (entries : list entry)
  : list ParsedRoute :=
  flat_map (scanEntry routesDir dir) entries.
(** ** JavaScript [toLowerCase] on method names *)

Definition ascii_lower (c : ascii) : ascii :=
  let n := nat_of_ascii c in
  if Nat.leb 65 n && Nat.leb n 90 then ascii_of_nat (n + 32) else c.

Fixpoint toLowerCase (s : string) : string :=
  match s with
  | EmptyString => EmptyString
  | String c r => String (ascii_lower c) (toLowerCase r)
  end.

Section Router.

(** [String.prototype.localeCompare] of the host: only the sign of its
    result is used by the comparator of [parseRoutes]. *)
Variable localeCompare : string -> string -> Z.

(** ** [parseRoutes] *)

(** [p.split('/').length] *)
Definition depth (p : string) : nat := length (split_on "/"%char p).

(** The comparator passed to [routes.sort]. *)
Definition compareRoutes (a b : ParsedRoute) : Z :=
  if isMiddleware a && negb (isMiddleware b) then -1
  else if negb (isMiddleware a) && isMiddleware b then 1
  else
    let aDepth := depth (path a) in
    let bDepth := depth (path b) in
    if negb (Nat.eqb aDepth bDepth) then Z.of_nat bDepth - Z.of_nat aDepth
    else localeCompare (path b) (path a).

(** [Array.prototype.sort] is a stable sort; we model it as insertion sort:
    each element, in input order, is put before the first already sorted
    element that the comparator places after it. *)
Fixpoint insert_by (cmp : ParsedRoute -> ParsedRoute -> Z) (x : ParsedRoute)
    (l : list ParsedRoute) : list ParsedRoute :=
  match l with
  | [] => [x]
  | y :: r => if Z.ltb 0 (cmp y x) then x :: y :: r else y :: insert_by cmp x r
  end.

Definition js_sort (cmp : ParsedRoute -> ParsedRoute -> Z) (l : list ParsedRoute)
  : list ParsedRoute :=
  fold_left (fun acc x => insert_by cmp x acc) l [].

(** [parseRoutes(routesDir)], run in the working directory [cwd] on a root
    directory whose entries are [root]. *)
Definition parseRoutes (cwd routesDir0 : string) (root : list entry)
  : list ParsedRoute :=
  let routesDir := pathResolve cwd routesDir0 in
  let routes := scanDirectory routesDir routesDir root in
  js_sort compareRoutes routes.

(** ** [loadRouteHandlers] *)

(** [import(importPath)]: the module namespace object, or [None] when the
    import rejects. *)
Variable import_module : string -> option object.

(** The route objects live in a heap; a route is referred to by its
    location. *)
Definition heap := list ParsedRoute.
Definition loc := nat.

Fixpoint heap_set (h : heap) (l : loc) (r : ParsedRoute) : heap :=
  match h, l with
  | [], _ => []
  | _ :: h', 0 => r :: h'
  | x :: h', S l' => x :: heap_set h' l' r
  end.

Definition importPath (route : ParsedRoute) : string := "file://" ++ filePath route.

(** the object literal assigned to [route.handlers] *)
Definition handlers_of_module (module : object) : object :=
  [("GET", get module "GET"); ("POST", get module "POST");
   ("PUT", get module "PUT"); ("DELETE", get module "DELETE");
   ("PATCH", get module "PATCH"); ("HEAD", get module "HEAD");
   ("OPTIONS", get module "OPTIONS"); ("default", get module "default")].

Definition set_handlers (route : ParsedRoute) (hs : object) : ParsedRoute :=
  {| path := path route; pattern := pattern route; paramNames := paramNames route;
     filePath := filePath route; handlers := hs;
     isMiddleware := isMiddleware route; specificMethod := specificMethod route |}.

(** [loadRouteHandlers(route)]: [None] is a rejected promise (a location
    outside the heap cannot occur and is treated the same way). *)
Definition loadRouteHandlers (h : heap) (route : loc) : option (heap * loc) :=
  match nth_error h route with
  | None => None
  | Some r =>
      match import_module (importPath r) with
      | None => None
      | Some module => Some (heap_set h route (set_handlers r (handlers_of_module module)), route)
      end
  end.

(** ** [createRouter] *)

(** The adapter: [transformPath] is a function; the three registration
    methods are recorded as calls. *)
Record FrameworkAdapter : Type := mkAdapter {
  transformPath : string -> string
}.

Inductive adapter_call : Type :=
| RegisterMiddleware (p : string) (handler : jsval)
| RegisterRoute (method p : string) (handler : jsval)
| RegisterDefaultHandler (p : string) (handler : jsval) (registeredMethods : list string).

(** [a || b] *)
Definition js_or (a b : jsval) : jsval := if truthy a then a else b.

(** the seven [if (route.handlers.M) methods.push(...)] lines *)
Definition push_if (hs : object) (m : string) : list (string * jsval) :=
  if truthy (get hs m) then [(m, get hs m)] else [].

Definition collect_methods (hs : object) : list (string * jsval) :=
  push_if hs "GET" ++ push_if hs "POST" ++ push_if hs "PUT" ++ push_if hs "DELETE"
  ++ push_if hs "PATCH" ++ push_if hs "OPTIONS" ++ push_if hs "HEAD".

(** [for (const { method, handler } of methods)]: the calls made and the
    final [registeredMethods]. *)
Fixpoint register_methods (tp : string) (methods : list (string * jsval))
    (registeredMethods : list string) : list adapter_call * list string :=
  match methods with
  | [] => ([], registeredMethods)
  | (method, handler) :: rest =>
      let '(cs, rm) := register_methods tp rest (app registeredMethods [toLowerCase method]) in
      (RegisterRoute method tp handler :: cs, rm)
  end.

(** The body of the [for] loop of [createRouter] after the [await]: the
    adapter calls made for one (loaded) route. *)
Definition route_calls (adapter : FrameworkAdapter) (route : ParsedRoute)
  : list adapter_call :=
  let transformedPath := transformPath adapter (path route) in
  let hs := handlers route in
  if isMiddleware route then
    let handler := js_or (get hs "default") (get hs "GET") in
    if truthy handler then [RegisterMiddleware transformedPath handler] else []
  else
    let methods := collect_methods hs in
    let '(cs, registeredMethods) := register_methods transformedPath methods [] in
    app cs (if truthy (get hs "default")
            then [RegisterDefaultHandler transformedPath (get hs "default") registeredMethods]
            else []).

(** [for (const route of routes) { await loadRouteHandlers(route); ... }]:
    the calls made, and [true] when the promise resolves. *)
Fixpoint router_loop (adapter : FrameworkAdapter) (h : heap) (routes : list loc)
  : list adapter_call * bool :=
  match routes with
  | [] => ([], true)
  | route :: rest =>
      match loadRouteHandlers h route with
      | None => ([], false)
      | Some (h', _) =>
          match nth_error h' route with
          | None => ([], false)
          | Some r =>
              let '(cs, ok) := router_loop adapter h' rest in
              (app (route_calls adapter r) cs, ok)
          end
      end
  end.

(** [createRouter(adapter, { routesDir })] *)
Definition createRouter (adapter : FrameworkAdapter) (cwd routesDir : string)
    (root : list entry) : list adapter_call * bool :=
  let routes := parseRoutes cwd routesDir root in
  router_loop adapter routes (seq 0 (length routes)).

End Router.

(** ** Helper definitions for the statements *)

(** The dot-segments of a relative path, in the order [parseRouteFile]
    visits them. *)
Definition route_segments (relativePath : string) : list string :=
  flat_map tokenize (route_parts (strip_route_suffix relativePath)).

(** [c] does not occur in [s] *)
Definition no_char (c : ascii) (s : string) : bool :=
  forallb (fun x => negb (ascii_eqb x c)) (list_ascii_of_string s).

(** the comparison by length, a consistent comparison used in examples *)
Definition length_compare (a b : string) : Z :=
  Z.of_nat (String.length a) - Z.of_nat (String.length b).

(** the keys of the object literal in [loadRouteHandlers] *)
Definition handler_keys : list string :=
  ["GET"; "POST"; "PUT"; "DELETE"; "PATCH"; "HEAD"; "OPTIONS"; "default"].

(** a route read from a module that exports only [GET] *)
Definition users_module : object := [("GET", JFun 1)].

(** every export among the eight handler names is a function, as
    [RouteHandler] types them *)
Definition exports_callable (module : object) : bool :=
  forallb (fun k => match assoc k module with
                    | None => true
                    | Some (JFun _) => true
                    | Some _ => false
                    end) handler_keys.

(** the method names in the order of the seven [if] lines of [createRouter] *)
Definition route_methods : list string :=
  ["GET"; "POST"; "PUT"; "DELETE"; "PATCH"; "OPTIONS"; "HEAD"].

(** a route file exporting GET, POST and default *)
Definition get_post_default_module : object :=
  [("GET", JFun 1); ("POST", JFun 2); ("default", JFun 3)].

(** The routes processed one after the other, in list order: each route's
    module is imported, then all of its calls are made; the first rejected
    import ends the run. *)
Fixpoint sequential_calls (imp : string -> option object) (adapter : FrameworkAdapter)
    (routes : list ParsedRoute) : list adapter_call * bool :=
  match routes with
  | [] => ([], true)
  | r :: rest =>
      match imp (importPath r) with
      | None => ([], false)
      | Some module =>
          let '(cs, ok) := sequential_calls imp adapter rest in
          (app (route_calls adapter (set_handlers r (handlers_of_module module))) cs, ok)
      end
  end.

Definition is_middleware_call (c : adapter_call) : bool :=
  match c with RegisterMiddleware _ _ => true | _ => false end.

(** "a middleware route is not placed after a non-middleware one" *)
Definition mw_le (a b : ParsedRoute) : Prop := isMiddleware b = true -> isMiddleware a = true.

(** modules of a routes directory with [auth.middleware.ts] (default export
    only) and [users.route.ts] (GET export only) *)
Definition auth_users_modules (p : string) : option object :=
  if String.eqb p "file:///srv/routes/auth.middleware.ts" then Some [("default", JFun 1)]
  else if String.eqb p "file:///srv/routes/users.route.ts" then Some [("GET", JFun 2)]
  else None.

(** [a] is not placed after [b] by the comparator of [parseRoutes] *)
Definition route_le (localeCompare : string -> string -> Z) (a b : ParsedRoute) : Prop :=
  (compareRoutes localeCompare a b <= 0)%Z.

(** ** The framework adapters

    [ExpressAdapter], [KoaAdapter], [HonoAdapter] and [FastifyAdapter]
    translate the three registration calls of [createRouter] into calls on
    the framework object, recorded here.  The Koa adapter passes the wrapper
    [async (ctx) => { await handler(ctx) }]; it is recorded by the handler
    it forwards to. *)
Inductive framework_call : Type :=
| AppUse (p : string) (handler : jsval)
| AppMethod (method p : string) (handler : jsval)
| AppOn (method p : string) (handler : jsval)
| AppAll (p : string) (handler : jsval)
| RouterRegister (p : string) (methods : list string) (handler : jsval)
| AppRoute (method url : string) (handler : jsval)
| OnRequestHook (middlewarePath : string) (handler : jsval).

(** [registeredMethods.includes(m)] *)
Definition js_includes (l : list string) (m : string) : bool := existsb (String.eqb m) l.

(** [methods.filter(method => !registeredMethods.includes(method))] *)
Definition unhandled_methods (methods registeredMethods : list string) : list string :=
  filter (fun m => negb (js_includes registeredMethods m)) methods.

(** the method names an adapter passed to [app[method](path, handler)] *)
Definition method_registrations (fcs : list framework_call) : list string :=
  flat_map (fun c => match c with AppMethod m _ _ => [m] | _ => [] end) fcs.

(** *** ExpressAdapter *)

Definition express_allMethods : list string :=
  ["get"; "post"; "put"; "delete"; "patch"; "options"; "head"].

(** [path.replace(/\*/g, '*')] *)
Fixpoint replace_star (s : string) : string :=
  match s with
  | EmptyString => EmptyString
  | String c r => (if ascii_eqb c "*"%char then "*" else String c "") ++ replace_star r
  end.

Definition expressAdapter : FrameworkAdapter := mkAdapter replace_star.

Definition express_call (c : adapter_call) : list framework_call :=
  match c with
  | RegisterMiddleware p h => [AppUse p h]
  | RegisterRoute m p h => [AppMethod (toLowerCase m) p h]
  | RegisterDefaultHandler p h registeredMethods =>
      map (fun m => AppMethod m p h) (unhandled_methods express_allMethods registeredMethods)
  end.

(** *** KoaAdapter ([methods] is [route_methods]) *)

Definition koaAdapter : FrameworkAdapter := mkAdapter (fun p => p).

Definition koa_call (c : adapter_call) : list framework_call :=
  match c with
  | RegisterMiddleware p h => [AppUse p h]
  | RegisterRoute m p h => [AppMethod (toLowerCase m) p h]
  | RegisterDefaultHandler p h registeredMethods =>
      map (fun m => RouterRegister p [m] h) (unhandled_methods route_methods registeredMethods)
  end.

(** *** HonoAdapter *)

Definition honoAdapter : FrameworkAdapter := mkAdapter (fun p => p).

Definition hono_call (c : adapter_call) : list framework_call :=
  match c with
  | RegisterMiddleware p h => [AppUse p h]
  | RegisterRoute m p h =>
      let methodLower := toLowerCase m in
      if String.eqb methodLower "head" then [AppOn "HEAD" p h]
      else [AppMethod methodLower p h]
  | RegisterDefaultHandler p h registeredMethods =>
      match registeredMethods with
      | [] => [AppAll p h]
      | _ :: _ => map (fun m => AppOn m p h) (unhandled_methods route_methods registeredMethods)
      end
  end.

(** *** FastifyAdapter *)

(** [s.slice(0, -n)] *)
Definition slice_drop_end (n : nat) (s : string) : string :=
  substring 0 (String.length s - n) s.

(** [path.endsWith('/*') ? path.slice(0, -2) : path] *)
Definition fastify_middlewarePath (p : string) : string :=
  if endsWith "/*" p then slice_drop_end 2 p else p.

(** the test of the [onRequest] hook: [request.url.startsWith(middlewarePath)] *)
Definition hook_runs (middlewarePath url : string) : bool := startsWith middlewarePath url.


(** [unhandledMethods], with the GET/HEAD rule *)
Definition fastify_unhandled (registeredMethods : list string) : list string :=
  let u := unhandled_methods route_methods registeredMethods in
  if js_includes registeredMethods "GET" && negb (js_includes registeredMethods "HEAD")
  then filter (fun m => negb (String.eqb m "HEAD")) u
  else u.

Definition fastify_call (c : adapter_call) : list framework_call :=
  match c with
  | RegisterMiddleware p h => [OnRequestHook (fastify_middlewarePath p) h]
  | RegisterRoute m p h => [AppMethod (toLowerCase m) p h]
  | RegisterDefaultHandler p h registeredMethods =>
      match registeredMethods with
      | [] => [AppAll p h]
      | _ :: _ => map (fun m => AppRoute m p h) (fastify_unhandled registeredMethods)
      end
  end.

(** ** The files of a directory tree *)

(** every file of the tree, with the directory path the scan reaches it
    under, in scan order *)
Fixpoint tree_files (dir : string) (e : entry) : list (string * string) :=
  match e with
  | File name => [(dir, name)]
  | Dir name entries =>
      let fullPath := pathJoin dir name in
      (fix go (es : list entry) : list (string * string) :=
         match es with
         | [] => []
         | e' :: r => app (tree_files fullPath e') (go r)
         end) entries
  end.

(** the files whose name passes the test of [scanDirectory] *)
Definition qualifying_files (files : list (string * string)) : list (string * string) :=
  filter (fun '(_, name) => qualifies name) files.

(** the route [parseRouteFile] makes of the file [name] of directory [dir] *)
Definition route_of_file (routesDir : string) (f : string * string) : ParsedRoute :=
  let '(dir, name) := f in parseRouteFile (pathJoin dir name) routesDir.

(** the [app[m](path, h)] calls of an adapter for the method name [m] *)
Definition calls_for_method (m : string) (fcs : list framework_call) : list framework_call :=
  filter (fun c => match c with AppMethod m' _ _ => String.eqb m' m | _ => false end) fcs.

(** ** Counting the route files of a directory tree *)

Fixpoint count_qualifying (e : entry) : nat :=
  match e with
  | File name => if qualifies name then 1 else 0
  | Dir _ entries =>
      (fix go (es : list entry) : nat :=
         match es with
         | [] => 0
         | e' :: r => count_qualifying e' + go r
         end) entries
  end.

(** a compiled path component: non-empty, without a slash *)
Definition path_word (x : string) : Prop := x <> "" /\ no_char "/"%char x = true.

(** ** Lemmas on the segment loop *)

Lemma convert_segments_app : forall a b ps cs,
  convert_segments (app a b) ps cs =
  match convert_segments a ps cs with
  | (ps', cs', true) => (ps', cs', true)
  | (ps', cs', false) => convert_segments b ps' cs'
  end.
Proof.
  induction a as [|x a IH]; intros b ps cs; simpl; [reflexivity|].
  destruct (is_catch_all x); [reflexivity|].
  destruct (is_dynamic x); [apply IH|].
  destruct (negb (String.eqb x "")); apply IH.
Qed.

Lemma convert_parts_flat : forall parts ps cs,
  convert_parts parts ps cs = convert_segments (flat_map tokenize parts) ps cs.
Proof.
  induction parts as [|part parts IH]; intros ps cs; simpl; [reflexivity|].
  rewrite convert_segments_app.
  destruct (convert_segments (tokenize part) ps cs) as [[ps' cs'] [|]]; auto.
Qed.

Lemma convert_segments_no_catch_all : forall a ps cs,
  (forall s, In s a -> is_catch_all s = false) ->
  exists ps' cs', convert_segments a ps cs = (ps', cs', false).
Proof.
  induction a as [|x a IH]; intros ps cs H; simpl; [eauto|].
  rewrite (H x (or_introl eq_refl)).
  assert (Ha : forall s, In s a -> is_catch_all s = false) by (intros; apply H; right; auto).
  destruct (is_dynamic x); [apply IH; auto|].
  destruct (negb (String.eqb x "")); apply IH; auto.
Qed.

Lemma nth_error_split_firstn : forall (A : Type) (l : list A) k x,
  nth_error l k = Some x -> l = app (firstn k l) (x :: skipn (S k) l).
Proof.
  induction l as [|y l IH]; intros k x H; destruct k; simpl in *; try discriminate.
  - injection H as ->. reflexivity.
  - f_equal. apply IH. exact H.
Qed.

Lemma In_firstn_nth : forall (A : Type) (l : list A) k s,
  In s (firstn k l) -> exists j, j < k /\ nth_error l j = Some s.
Proof.
  induction l as [|y l IH]; intros k s H; destruct k; simpl in *; try contradiction.
  destruct H as [<-|H].
  - exists 0. split; [lia|reflexivity].
  - destruct (IH k s H) as [j [Hj Hn]]. exists (S j). split; [lia|exact Hn].
Qed.

(** ** Claims about the parser *)

(** C1 (catch-all truncation).  When the dot-segments of a file's relative
    path contain a catch-all token [[...name]] at position [k] (the first
    one), the compiled route is fixed by the segments before it: [path] is
    what those segments compile to followed by [/*], and [paramNames] is
    their parameter names followed by [name]; no later segment or directory
    part contributes.  In particular [files/[...path]/extra.route.ts] alone
    in the routes directory yields exactly one route, whose [path] does not
    contain [extra] and whose [paramNames] contains [path]. *)
Theorem catch_all_truncation :
  (forall filePath routesDir k seg,
     let segs := route_segments (pathRelative routesDir filePath) in
     nth_error segs k = Some seg ->
     is_catch_all seg = true ->
     (forall j s, j < k -> nth_error segs j = Some s -> is_catch_all s = false) ->
     exists ps cs,
       convert_segments (firstn k segs) [] [] = (ps, cs, false) /\
       path (parseRouteFile filePath routesDir)
         = collapse_slashes ("/" ++ join "/" cs) ++ "/*" /\
       paramNames (parseRouteFile filePath routesDir) = app ps [slice_to_last 4 seg])
  /\
  (forall localeCompare cwd,
     exists r,
       parseRoutes localeCompare cwd "/srv/routes"
         [Dir "files" [Dir "[...path]" [File "extra.route.ts"]]] = [r] /\
       includes "extra" (path r) = false /\
       In "path" (paramNames r)).
Proof.
  split.
  - intros filePath routesDir k seg segs Hk Hseg Hbefore.
    assert (Hpre : forall s, In s (firstn k segs) -> is_catch_all s = false).
    { intros s Hs. destruct (In_firstn_nth _ _ _ _ Hs) as [j [Hj Hn]].
      exact (Hbefore j s Hj Hn). }
    destruct (convert_segments_no_catch_all (firstn k segs) [] [] Hpre)
      as [ps [cs Hcs]].
    exists ps, cs. split; [exact Hcs|].
    assert (Hconv : convert_parts
                      (route_parts (strip_route_suffix (pathRelative routesDir filePath)))
                      [] [] = (app ps [slice_to_last 4 seg], cs, true)).
    { rewrite convert_parts_flat.
      change (flat_map tokenize _) with segs.
      rewrite (nth_error_split_firstn _ segs k seg Hk).
      rewrite convert_segments_app, Hcs. simpl. rewrite Hseg. reflexivity. }
    unfold parseRouteFile. rewrite Hconv. simpl. split; reflexivity.
  - intros lc cwd. eexists. split; [reflexivity|].
    split; [reflexivity|]. simpl. left. reflexivity.
Qed.

Lemma catch_all_truncation_witness :
  let segs := route_segments
                (pathRelative "/srv/routes" "/srv/routes/files/[...path]/extra.route.ts") in
  (nth_error segs 1 = Some "[...path]" /\
   is_catch_all "[...path]" = true /\
   (forall j s, j < 1 -> nth_error segs j = Some s -> is_catch_all s = false)) /\
  exists ps cs,
    convert_segments (firstn 1 segs) [] [] = (ps, cs, false) /\
    path (parseRouteFile "/srv/routes/files/[...path]/extra.route.ts" "/srv/routes")
      = collapse_slashes ("/" ++ join "/" cs) ++ "/*" /\
    paramNames (parseRouteFile "/srv/routes/files/[...path]/extra.route.ts" "/srv/routes")
      = app ps [slice_to_last 4 "[...path]"].
Proof.
  intros segs.
  assert (H1 : nth_error segs 1 = Some "[...path]") by reflexivity.
  assert (H2 : is_catch_all "[...path]" = true) by reflexivity.
  assert (H3 : forall j s, j < 1 -> nth_error segs j = Some s -> is_catch_all s = false).
  { intros j s Hj Hn. destruct j; [|lia].
    vm_compute in Hn. injection Hn as <-. reflexivity. }
  split; [split; [exact H1|split; [exact H2|exact H3]]|].
  exact (proj1 catch_all_truncation "/srv/routes/files/[...path]/extra.route.ts"
           "/srv/routes" 1 "[...path]" H1 H2 H3).
Defined.

(** ** The order produced by [routes.sort] *)

(** ** Insertion into a sorted list *)

Lemma insert_by_sorted_gen :
  forall (cmp : ParsedRoute -> ParsedRoute -> Z) (R : ParsedRoute -> ParsedRoute -> Prop),
  (forall a b, (0 < cmp b a)%Z -> R a b) ->
  (forall a b, (cmp b a <= 0)%Z -> R b a) ->
  forall x l, Sorted R l -> Sorted R (insert_by cmp x l).
Proof.
  intros cmp R Hgt Hle x l. induction l as [|y r IH]; intros Hs; simpl.
  - repeat constructor.
  - destruct (Z.ltb_spec 0 (cmp y x)) as [Hyx|Hyx].
    + constructor; [exact Hs|]. constructor. apply Hgt. exact Hyx.
    + apply Sorted_inv in Hs as [Hr Hhd].
      constructor; [apply IH; exact Hr|].
      destruct r as [|z r']; simpl.
      * constructor. apply Hle. exact Hyx.
      * destruct (Z.ltb 0 (cmp z x)); constructor.
        -- apply Hle. exact Hyx.
        -- apply HdRel_inv in Hhd. exact Hhd.
Qed.

Lemma js_sort_sorted_gen :
  forall (cmp : ParsedRoute -> ParsedRoute -> Z) (R : ParsedRoute -> ParsedRoute -> Prop),
  (forall a b, (0 < cmp b a)%Z -> R a b) ->
  (forall a b, (cmp b a <= 0)%Z -> R b a) ->
  forall l, Sorted R (js_sort cmp l).
Proof.
  intros cmp R Hgt Hle l. unfold js_sort.
  assert (G : forall acc, Sorted R acc -> Sorted R (fold_left (fun acc x => insert_by cmp x acc) l acc)).
  { induction l as [|x l IH]; intros acc Hs; simpl; [exact Hs|].
    apply IH. apply insert_by_sorted_gen; assumption. }
  apply G. constructor.
Qed.


Section Sorting.

Variable localeCompare : string -> string -> Z.

(** [localeCompare] is a consistent comparison: a positive result is not
    positive the other way round, and "not after" is transitive. *)
Hypothesis localeCompare_antisym :
  forall a b, (0 < localeCompare a b)%Z -> (localeCompare b a <= 0)%Z.
Hypothesis localeCompare_trans :
  forall a b c, (localeCompare a b <= 0)%Z -> (localeCompare b c <= 0)%Z ->
  (localeCompare a c <= 0)%Z.

Lemma compareRoutes_antisym : forall a b,
  (0 < compareRoutes localeCompare a b)%Z -> (compareRoutes localeCompare b a <= 0)%Z.
Proof.
  intros a b. unfold compareRoutes.
  destruct (isMiddleware a), (isMiddleware b); simpl; try lia;
  rewrite (Nat.eqb_sym (depth (path b)));
  destruct (Nat.eqb (depth (path a)) (depth (path b))) eqn:E; simpl;
  try (apply Nat.eqb_neq in E; lia);
  apply localeCompare_antisym.
Qed.

Lemma compareRoutes_trans : forall a b c,
  route_le localeCompare a b -> route_le localeCompare b c -> route_le localeCompare a c.
Proof.
  unfold route_le, compareRoutes. intros a b c.
  destruct (isMiddleware a), (isMiddleware b), (isMiddleware c); simpl; try lia;
  destruct (Nat.eqb_spec (depth (path a)) (depth (path b))) as [Eab|Eab];
  destruct (Nat.eqb_spec (depth (path b)) (depth (path c))) as [Ebc|Ebc];
  destruct (Nat.eqb_spec (depth (path a)) (depth (path c))) as [Eac|Eac];
  simpl; try lia;
  intros H1 H2; apply (localeCompare_trans _ _ _ H2 H1).
Qed.

Lemma insert_by_sorted : forall x l,
  Sorted (route_le localeCompare) l -> Sorted (route_le localeCompare) (insert_by (compareRoutes localeCompare) x l).
Proof.
  apply insert_by_sorted_gen.
  - intros a b H. apply compareRoutes_antisym. exact H.
  - intros a b H. unfold route_le. lia.
Qed.

Lemma js_sort_aux_sorted : forall l acc,
  Sorted (route_le localeCompare) acc ->
  Sorted (route_le localeCompare) (fold_left (fun acc x => insert_by (compareRoutes localeCompare) x acc) l acc).
Proof.
  induction l as [|x l IH]; intros acc Hs; simpl; [exact Hs|].
  apply IH. apply insert_by_sorted. exact Hs.
Qed.

Lemma js_sort_strongly_sorted : forall l,
  StronglySorted (route_le localeCompare) (js_sort (compareRoutes localeCompare) l).
Proof.
  intros l. apply Sorted_StronglySorted.
  - intros a b c. apply compareRoutes_trans.
  - apply js_sort_aux_sorted. constructor.
Qed.

End Sorting.

Lemma StronglySorted_nth : forall (A : Type) (R : A -> A -> Prop) l i j a b,
  StronglySorted R l -> i < j -> nth_error l i = Some a -> nth_error l j = Some b -> R a b.
Proof.
  intros A R l. induction l as [|x l IH]; intros i j a b Hs Hij Ha Hb.
  - destruct i; discriminate.
  - apply StronglySorted_inv in Hs as [Hs Hall].
    destruct i, j; simpl in *; try lia.
    + injection Ha as <-. rewrite Forall_forall in Hall. apply Hall.
      eapply nth_error_In. exact Hb.
    + apply (IH i j); auto. lia.
Qed.

(** C2 (sort order).  Whenever [localeCompare] is a consistent comparison,
    the list returned by [parseRoutes] is ordered: for positions [i < j],
    a middleware route at [j] forces a middleware route at [i]; within the
    same class the route at [i] has at least as many [/]-delimited
    components; and at equal class and depth the path at [j] is not after
    the path at [i] by [localeCompare] (descending order). *)
Theorem parseRoutes_sorted :
  forall (localeCompare : string -> string -> Z),
  (forall a b, (0 < localeCompare a b)%Z -> (localeCompare b a <= 0)%Z) ->
  (forall a b c, (localeCompare a b <= 0)%Z -> (localeCompare b c <= 0)%Z ->
     (localeCompare a c <= 0)%Z) ->
  forall cwd routesDir root i j ri rj,
  let routes := parseRoutes localeCompare cwd routesDir root in
  i < j -> nth_error routes i = Some ri -> nth_error routes j = Some rj ->
  (isMiddleware rj = true -> isMiddleware ri = true) /\
  (isMiddleware ri = isMiddleware rj -> depth (path rj) <= depth (path ri)) /\
  (isMiddleware ri = isMiddleware rj -> depth (path ri) = depth (path rj) ->
     (localeCompare (path rj) (path ri) <= 0)%Z).
Proof.
  intros lc Hanti Htrans cwd routesDir root i j ri rj routes Hij Hi Hj.
  assert (Hle : route_le lc ri rj).
  { eapply StronglySorted_nth; [|exact Hij|exact Hi|exact Hj].
    apply js_sort_strongly_sorted; assumption. }
  unfold route_le, compareRoutes in Hle.
  destruct (isMiddleware ri), (isMiddleware rj); simpl in Hle;
  try lia; (split; [intros; congruence|]);
  destruct (Nat.eqb_spec (depth (path ri)) (depth (path rj))) as [E|E];
  simpl in Hle; split; intros; try lia; exact Hle.
Qed.

Lemma parseRoutes_sorted_witness :
  let lc := length_compare in
  let root := [File "users.route.ts"; Dir "api" [Dir "v1" [File "products.route.ts"]];
               File "auth.middleware.ts"; File "zeta.route.js"] in
  let routes := parseRoutes lc "/" "/srv/routes" root in
  let ri := parseRouteFile "/srv/routes/auth.middleware.ts" "/srv/routes" in
  let rj := parseRouteFile "/srv/routes/api/v1/products.route.ts" "/srv/routes" in
  ((forall a b, (0 < lc a b)%Z -> (lc b a <= 0)%Z) /\
   (forall a b c, (lc a b <= 0)%Z -> (lc b c <= 0)%Z -> (lc a c <= 0)%Z) /\
   0 < 1 /\ nth_error routes 0 = Some ri /\ nth_error routes 1 = Some rj) /\
  (isMiddleware rj = true -> isMiddleware ri = true) /\
  (isMiddleware ri = isMiddleware rj -> depth (path rj) <= depth (path ri)) /\
  (isMiddleware ri = isMiddleware rj -> depth (path ri) = depth (path rj) ->
     (lc (path rj) (path ri) <= 0)%Z).
Proof.
  intros lc root routes ri rj.
  assert (H1 : forall a b, (0 < lc a b)%Z -> (lc b a <= 0)%Z)
    by (intros a b; unfold lc, length_compare; lia).
  assert (H2 : forall a b c, (lc a b <= 0)%Z -> (lc b c <= 0)%Z -> (lc a c <= 0)%Z)
    by (intros a b c; unfold lc, length_compare; lia).
  assert (H3 : nth_error routes 0 = Some ri) by (vm_compute; reflexivity).
  assert (H4 : nth_error routes 1 = Some rj) by (vm_compute; reflexivity).
  split; [split; [exact H1|split; [exact H2|split; [lia|split; assumption]]]|].
  exact (parseRoutes_sorted lc H1 H2 "/" "/srv/routes" root 0 1 ri rj ltac:(lia) H3 H4).
Defined.

(** ** String lemmas *)

Lemma string_app_assoc : forall a b c : string, (a ++ b) ++ c = a ++ (b ++ c).
Proof. induction a as [|x a IH]; intros b c; simpl; [reflexivity|]. rewrite IH. reflexivity. Qed.

Lemma string_app_nil_r : forall a : string, a ++ "" = a.
Proof. induction a as [|x a IH]; simpl; [reflexivity|]. rewrite IH. reflexivity. Qed.

Lemma list_ascii_app : forall a b,
  list_ascii_of_string (a ++ b) = app (list_ascii_of_string a) (list_ascii_of_string b).
Proof. induction a as [|x a IH]; intros b; simpl; [reflexivity|]. rewrite IH. reflexivity. Qed.

Lemma string_length_app : forall a b,
  String.length (a ++ b) = String.length a + String.length b.
Proof. induction a as [|x a IH]; intros b; simpl; [reflexivity|]. rewrite IH. reflexivity. Qed.

Lemma list_prefix_app : forall l m, list_prefix l (app l m) = true.
Proof.
  induction l as [|x l IH]; intros m; simpl; [reflexivity|].
  rewrite IH. unfold ascii_eqb. rewrite Ascii.eqb_refl. reflexivity.
Qed.

Lemma endsWith_app : forall suf p, endsWith suf (p ++ suf) = true.
Proof.
  intros suf p. unfold endsWith. rewrite list_ascii_app, rev_app_distr.
  apply list_prefix_app.
Qed.

Lemma endsWith_app_l : forall suf x t,
  endsWith suf (x ++ t) =
  list_prefix (rev (list_ascii_of_string suf))
              (app (rev (list_ascii_of_string t)) (rev (list_ascii_of_string x))).
Proof. intros suf x t. unfold endsWith. rewrite list_ascii_app, rev_app_distr. reflexivity. Qed.

Lemma substring_app_prefix : forall p q, substring 0 (String.length p) (p ++ q) = p.
Proof. induction p as [|x p IH]; intros q; simpl; [destruct q; reflexivity|]. rewrite IH. reflexivity. Qed.

Lemma replace_suffix_app : forall suf p, replace_suffix suf (p ++ suf) = p.
Proof.
  intros suf p. unfold replace_suffix. rewrite endsWith_app, string_length_app.
  replace (String.length p + String.length suf - String.length suf)
    with (String.length p) by lia.
  apply substring_app_prefix.
Qed.

Lemma replace_suffix_no : forall suf s, endsWith suf s = false -> replace_suffix suf s = s.
Proof. intros suf s H. unfold replace_suffix. rewrite H. reflexivity. Qed.

Lemma no_char_app : forall c a b,
  no_char c (a ++ b) = no_char c a && no_char c b.
Proof. intros c a b. unfold no_char. rewrite list_ascii_app, forallb_app. reflexivity. Qed.

Lemma split_on_no_char : forall c s, no_char c s = true -> split_on c s = [s].
Proof.
  intros c s. induction s as [|x s IH]; intros H; simpl; [reflexivity|].
  unfold no_char in H. simpl in H. apply andb_prop in H as [Hx Hs].
  apply negb_true_iff in Hx. unfold ascii_eqb in *. rewrite Hx.
  rewrite IH by exact Hs. reflexivity.
Qed.

Lemma startsWith_app : forall p q, startsWith p (p ++ q) = true.
Proof.
  unfold startsWith. induction p as [|x p IH]; intros q; simpl.
  - destruct q; reflexivity.
  - destruct (ascii_dec x x) as [_|C]; [apply IH|contradiction C; reflexivity].
Qed.

(** Inside brackets, characters other than [']'] are appended to the
    current segment. *)
Lemma tokenize_in_brackets : forall n rest cur segs,
  no_char "]"%char n = true ->
  tokenize_aux (n ++ rest) cur true segs = tokenize_aux rest (cur ++ n) true segs.
Proof.
  induction n as [|x n IH]; intros rest cur segs H; simpl.
  - rewrite string_app_nil_r. reflexivity.
  - unfold no_char in H. simpl in H. apply andb_prop in H as [Hx Hn].
    apply negb_true_iff in Hx. unfold ascii_eqb in *. rewrite Hx.
    destruct (Ascii.eqb x "["%char) eqn:Eb.
    + apply Ascii.eqb_eq in Eb. subst x.
      rewrite IH by exact Hn. rewrite string_app_assoc. reflexivity.
    + simpl. rewrite andb_false_r.
      rewrite IH by exact Hn. rewrite string_app_assoc. reflexivity.
Qed.

(** C4 (root-level catch-all).  A route file whose path relative to the
    routes directory is [[...N].route.ts] or [[...N].route.js] (no
    directory, no static segment before the catch-all, [N] without [']'] or
    [/]) compiles to the path [//*]: the [/*] is appended after the slash
    collapse.  For [[...all].route.ts] alone in the routes directory,
    [parseRoutes] returns one route with path [//*]. *)
Theorem root_catch_all_double_slash :
  (forall filePath routesDir N ext,
     (ext = "ts" \/ ext = "js") ->
     no_char "]"%char N = true -> no_char "/"%char N = true ->
     pathRelative routesDir filePath = "[..." ++ N ++ "].route." ++ ext ->
     path (parseRouteFile filePath routesDir) = "//*")
  /\
  (forall localeCompare cwd,
     exists r,
       parseRoutes localeCompare cwd "/srv/routes" [File "[...all].route.ts"] = [r] /\
       path r = "//*").
Proof.
  split.
  - intros filePath routesDir N ext Hext Hb Hs Hrel.
    remember (("[..." ++ N) ++ "]") as X eqn:HX.
    assert (Hrel' : pathRelative routesDir filePath = X ++ (".route." ++ ext)).
    { rewrite Hrel, HX, !string_app_assoc. reflexivity. }
    assert (HXs : no_char "/"%char X = true).
    { rewrite HX, !no_char_app, Hs. reflexivity. }
    assert (HXe : endsWith "]" X = true).
    { rewrite HX. apply endsWith_app. }
    assert (HXtok : tokenize X = [X]).
    { rewrite HX, string_app_assoc. unfold tokenize. simpl.
      rewrite tokenize_in_brackets by exact Hb. simpl. reflexivity. }
    assert (HXca : is_catch_all X = true).
    { unfold is_catch_all. rewrite HXe, HX, string_app_assoc, startsWith_app. reflexivity. }
    assert (HXslash : endsWith "/route.ts" X = false /\ endsWith "/route.js" X = false).
    { rewrite HX, !endsWith_app_l. split; reflexivity. }
    assert (HXeq : String.eqb X "" = false /\ String.eqb X "index" = false /\
                   String.eqb X "route.ts" = false /\ String.eqb X "route.js" = false).
    { rewrite HX. repeat split; reflexivity. }
    assert (HXmw : forall e, e = "ts" \/ e = "js" ->
              endsWith ".middleware.ts" (X ++ (".route." ++ e)) = false /\
              endsWith ".middleware.js" (X ++ (".route." ++ e)) = false).
    { intros e [-> | ->]; rewrite !endsWith_app_l; split; reflexivity. }
    destruct (HXmw ext Hext) as [Hm1 Hm2].
    clear HX Hrel HXmw.
    assert (Hstrip : strip_route_suffix (X ++ (".route." ++ ext)) = X).
    { unfold strip_route_suffix, replace_ext_suffix.
      simpl (".middleware." ++ _). rewrite Hm1, (replace_suffix_no _ _ Hm2).
      destruct HXslash as [Hs1 Hs2]. destruct HXeq as [_ [_ [He1 He2]]].
      destruct Hext as [-> | ->]; simpl (".route." ++ _).
      - rewrite endsWith_app, replace_suffix_app.
        simpl ("/route." ++ _). rewrite Hs1, (replace_suffix_no _ _ Hs2), He1, He2.
        reflexivity.
      - rewrite (endsWith_app_l ".route.ts"). simpl (list_prefix _ _).
        rewrite replace_suffix_app.
        simpl ("/route." ++ _). rewrite Hs1, (replace_suffix_no _ _ Hs2), He1, He2.
        reflexivity. }
    unfold parseRouteFile. rewrite Hrel', Hstrip.
    unfold route_parts. rewrite split_on_no_char by exact HXs.
    simpl. destruct HXeq as [-> [-> _]]. simpl.
    rewrite HXtok. simpl. rewrite HXca. reflexivity.
  - intros lc cwd. eexists. split; reflexivity.
Qed.

Lemma root_catch_all_double_slash_witness :
  (("ts" = "ts" \/ "ts" = "js") /\
   no_char "]"%char "all" = true /\ no_char "/"%char "all" = true /\
   pathRelative "/srv/routes" "/srv/routes/[...all].route.ts"
     = "[..." ++ "all" ++ "].route." ++ "ts") /\
  path (parseRouteFile "/srv/routes/[...all].route.ts" "/srv/routes") = "//*".
Proof.
  assert (H1 : "ts" = "ts" \/ "ts" = "js") by (left; reflexivity).
  assert (H2 : no_char "]"%char "all" = true) by reflexivity.
  assert (H3 : no_char "/"%char "all" = true) by reflexivity.
  assert (H4 : pathRelative "/srv/routes" "/srv/routes/[...all].route.ts"
                 = "[..." ++ "all" ++ "].route." ++ "ts") by reflexivity.
  split; [split; [exact H1|split; [exact H2|split; [exact H3|exact H4]]]|].
  exact (proj1 root_catch_all_double_slash "/srv/routes/[...all].route.ts" "/srv/routes"
           "all" "ts" H1 H2 H3 H4).
Defined.

(** C3 (no [//] in a route path), counterexample: for a routes directory
    holding only the root-level catch-all file [[...all].route.ts],
    [parseRoutes] returns one route, whose path [//*] contains [//]. *)
Theorem root_catch_all_path_contains_double_slash :
  exists r,
    parseRoutes length_compare "/" "/srv/routes" [File "[...all].route.ts"] = [r] /\
    path r = "//*" /\ includes "//" (path r) = true.
Proof. eexists. split; [reflexivity|]. split; reflexivity. Qed.

(** C6 (bare [middleware.ts]), counterexample: a routes directory holding
    only [middleware.ts] (or only [middleware.js]) yields no route at all,
    so no middleware route. *)
Lemma bare_middleware_counterexample :
  ~ (exists r, In r (parseRoutes length_compare "/" "/srv/routes" [File "middleware.ts"]) /\
               isMiddleware r = true) /\
  ~ (exists r, In r (parseRoutes length_compare "/" "/srv/routes" [File "middleware.js"]) /\
               isMiddleware r = true).
Proof.
  split; intros [r [Hin _]]; vm_compute in Hin; exact Hin.
Qed.

(** ** Heap lemmas *)

Lemma heap_set_length : forall h l r, length (heap_set h l r) = length h.
Proof.
  induction h as [|x h IH]; intros l r; destruct l; simpl; auto.
Qed.

Lemma heap_set_same : forall h l r x,
  nth_error h l = Some x -> nth_error (heap_set h l r) l = Some r.
Proof.
  induction h as [|y h IH]; intros l r x H; destruct l; simpl in *; try discriminate; auto.
  eapply IH. exact H.
Qed.

Lemma heap_set_other : forall h l r l2,
  l2 <> l -> nth_error (heap_set h l r) l2 = nth_error h l2.
Proof.
  induction h as [|y h IH]; intros l r l2 Hne; destruct l, l2; simpl; auto; try lia.
Qed.

Lemma loadRouteHandlers_spec : forall imp h l h' l',
  loadRouteHandlers imp h l = Some (h', l') ->
  exists r module,
    nth_error h l = Some r /\ imp (importPath r) = Some module /\
    l' = l /\ h' = heap_set h l (set_handlers r (handlers_of_module module)).
Proof.
  intros imp h l h' l' H. unfold loadRouteHandlers in H.
  destruct (nth_error h l) as [r|] eqn:Hr; [|discriminate].
  destruct (imp (importPath r)) as [module|] eqn:Hm; [|discriminate].
  injection H as <- <-. exists r, module. auto.
Qed.

(** C7 (absent exports leave no entry), counterexample: for a module that
    exports only [GET], the loaded route's [handlers] has a [POST] entry
    whose value is [undefined], a falsy placeholder. *)
Lemma absent_export_counterexample :
  let r0 := parseRouteFile "/srv/routes/users.route.ts" "/srv/routes" in
  let module : object := [("GET", JFun 1)] in
  exists h' r',
    loadRouteHandlers (fun _ => Some module) [r0] 0 = Some (h', 0) /\
    nth_error h' 0 = Some r' /\
    has_key module "POST" = false /\
    has_key (handlers r') "POST" = true /\
    get (handlers r') "POST" = JUndefined /\ truthy (get (handlers r') "POST") = false.
Proof.
  intros r0 module. do 2 eexists. split; [reflexivity|]. split; [reflexivity|].
  repeat split; reflexivity.
Qed.

(** C7 (absent exports leave no entry), amended: after a successful
    [loadRouteHandlers], the route's [handlers] object has exactly the
    eight keys GET, POST, PUT, DELETE, PATCH, HEAD, OPTIONS, default, in
    that order, whatever the module exports; the value under each key is the
    module's export of that name, [undefined] when the module lacks it. *)
Theorem loaded_handlers_keys :
  forall imp h l h' l',
    loadRouteHandlers imp h l = Some (h', l') ->
    exists r module r',
      nth_error h l = Some r /\ imp (importPath r) = Some module /\
      nth_error h' l = Some r' /\
      map fst (handlers r') = handler_keys /\
      (forall k, In k handler_keys -> get (handlers r') k = get module k) /\
      (forall k, ~ In k handler_keys -> has_key (handlers r') k = false).
Proof.
  intros imp h l h' l' H.
  destruct (loadRouteHandlers_spec imp h l h' l' H) as [r [module [Hr [Hm [-> ->]]]]].
  exists r, module, (set_handlers r (handlers_of_module module)).
  split; [exact Hr|]. split; [exact Hm|].
  split; [eapply heap_set_same; exact Hr|].
  simpl. split; [reflexivity|]. split.
  - intros k Hk. unfold get at 1. simpl.
    repeat (destruct Hk as [<-|Hk]; [reflexivity|]). destruct Hk.
  - intros k Hk. unfold has_key. simpl.
    repeat match goal with
           | |- context [String.eqb k ?s] =>
               destruct (String.eqb_spec k s) as [->|_];
               [exfalso; apply Hk; simpl; tauto|]
           end.
    reflexivity.
Qed.

Lemma loaded_handlers_keys_witness :
  let r0 := parseRouteFile "/srv/routes/users.route.ts" "/srv/routes" in
  let imp := fun _ : string => Some users_module in
  let h' := [set_handlers r0 (handlers_of_module users_module)] in
  loadRouteHandlers imp [r0] 0 = Some (h', 0) /\
  exists r module r',
    nth_error [r0] 0 = Some r /\ imp (importPath r) = Some module /\
    nth_error h' 0 = Some r' /\
    map fst (handlers r') = handler_keys /\
    (forall k, In k handler_keys -> get (handlers r') k = get module k) /\
    (forall k, ~ In k handler_keys -> has_key (handlers r') k = false).
Proof.
  intros r0 imp h'.
  assert (H : loadRouteHandlers imp [r0] 0 = Some (h', 0)) by reflexivity.
  split; [exact H|].
  exact (loaded_handlers_keys imp [r0] 0 h' 0 H).
Defined.

(** C10 (frame of [loadRouteHandlers]).  A successful [loadRouteHandlers]
    returns the location it was given, changes no other heap cell, and in
    the route at that location changes only [handlers]: [path], [pattern],
    [paramNames], [filePath], [isMiddleware] and [specificMethod] keep their
    values. *)
Theorem loadRouteHandlers_frame :
  forall imp h l h' l',
    loadRouteHandlers imp h l = Some (h', l') ->
    l' = l /\ length h' = length h /\
    (forall l2, l2 <> l -> nth_error h' l2 = nth_error h l2) /\
    exists r r',
      nth_error h l = Some r /\ nth_error h' l = Some r' /\
      path r' = path r /\ pattern r' = pattern r /\ paramNames r' = paramNames r /\
      filePath r' = filePath r /\ isMiddleware r' = isMiddleware r /\
      specificMethod r' = specificMethod r.
Proof.
  intros imp h l h' l' H.
  destruct (loadRouteHandlers_spec imp h l h' l' H) as [r [module [Hr [Hm [-> ->]]]]].
  split; [reflexivity|]. split; [apply heap_set_length|].
  split; [intros l2 Hne; apply heap_set_other; exact Hne|].
  exists r, (set_handlers r (handlers_of_module module)).
  split; [exact Hr|]. split; [eapply heap_set_same; exact Hr|].
  repeat split; reflexivity.
Qed.

Lemma loadRouteHandlers_frame_witness :
  let r0 := parseRouteFile "/srv/routes/users.route.ts" "/srv/routes" in
  let r1 := parseRouteFile "/srv/routes/auth.middleware.ts" "/srv/routes" in
  let imp := fun _ : string => Some users_module in
  let h' := [r0; set_handlers r1 (handlers_of_module users_module)] in
  loadRouteHandlers imp [r0; r1] 1 = Some (h', 1) /\
  (1 = 1 /\ length h' = length [r0; r1] /\
   (forall l2, l2 <> 1 -> nth_error h' l2 = nth_error [r0; r1] l2) /\
   exists r r',
     nth_error [r0; r1] 1 = Some r /\ nth_error h' 1 = Some r' /\
     path r' = path r /\ pattern r' = pattern r /\ paramNames r' = paramNames r /\
     filePath r' = filePath r /\ isMiddleware r' = isMiddleware r /\
     specificMethod r' = specificMethod r).
Proof.
  intros r0 r1 imp h'.
  assert (H : loadRouteHandlers imp [r0; r1] 1 = Some (h', 1)) by reflexivity.
  split; [exact H|].
  exact (loadRouteHandlers_frame imp [r0; r1] 1 h' 1 H).
Defined.

(** ** Claims about the router factory *)

Lemma get_handlers_of_module : forall module k,
  In k handler_keys -> get (handlers_of_module module) k = get module k.
Proof.
  intros module k Hk. unfold get at 1. simpl.
  repeat (destruct Hk as [<-|Hk]; [reflexivity|]). destruct Hk.
Qed.

Lemma truthy_callable : forall module k,
  exports_callable module = true -> In k handler_keys ->
  truthy (get module k) = has_key module k.
Proof.
  intros module k H Hk. unfold exports_callable in H. rewrite forallb_forall in H.
  specialize (H k Hk). unfold get, has_key.
  destruct (assoc k module) as [[]|]; try discriminate; reflexivity.
Qed.

Ltac in_keys := unfold handler_keys; simpl; tauto.

(** C5 (default-handler exclusion list).  For a route (non-middleware)
    whose module's handler exports are functions, the calls [createRouter]
    makes for it are: [registerRoute(M, p, module.M)] for each method [M]
    the module exports, in the order GET, POST, PUT, DELETE, PATCH, OPTIONS,
    HEAD; then, exactly when the module has a [default] export,
    [registerDefaultHandler(p, module.default, ms)] where [ms] lists those
    method names in lower case, in the same order.  For a module exporting
    GET, POST and default, [ms] is [["get"; "post"]]. *)
Theorem default_handler_registered_methods :
  forall adapter r module,
    isMiddleware r = false -> exports_callable module = true ->
    let present := filter (has_key module) route_methods in
    let tp := transformPath adapter (path r) in
    route_calls adapter (set_handlers r (handlers_of_module module)) =
      app (map (fun m => RegisterRoute m tp (get module m)) present)
          (if has_key module "default"
           then [RegisterDefaultHandler tp (get module "default") (map toLowerCase present)]
           else []).
Proof.
  intros adapter r module Hmw Hc present tp.
  unfold route_calls, collect_methods, push_if, present, tp.
  cbn [handlers set_handlers isMiddleware path]. rewrite Hmw.
  rewrite !get_handlers_of_module by in_keys.
  rewrite !(truthy_callable module) by (assumption || in_keys).
  unfold route_methods. simpl filter.
  destruct (has_key module "GET"), (has_key module "POST"), (has_key module "PUT"),
    (has_key module "DELETE"), (has_key module "PATCH"), (has_key module "OPTIONS"),
    (has_key module "HEAD"), (has_key module "default"); reflexivity.
Qed.

Lemma default_handler_registered_methods_witness :
  let adapter := mkAdapter (fun p => p) in
  let r := parseRouteFile "/srv/routes/users.route.ts" "/srv/routes" in
  let module := get_post_default_module in
  (isMiddleware r = false /\ exports_callable module = true) /\
  route_calls adapter (set_handlers r (handlers_of_module module)) =
    [RegisterRoute "GET" "/users" (JFun 1); RegisterRoute "POST" "/users" (JFun 2);
     RegisterDefaultHandler "/users" (JFun 3) ["get"; "post"]].
Proof.
  intros adapter r module.
  assert (H1 : isMiddleware r = false) by reflexivity.
  assert (H2 : exports_callable module = true) by reflexivity.
  split; [split; assumption|].
  rewrite (default_handler_registered_methods adapter r module H1 H2).
  reflexivity.
Defined.

(** C8 (middleware handler selection).  For a middleware route whose
    module's handler exports are functions, [createRouter] makes one
    [registerMiddleware] call with [module.default] when the module has a
    [default] export, else one with [module.GET] when it has [GET], and no
    call at all otherwise; the calls of a route are a list, there is no
    error outcome. *)
Theorem middleware_handler_selection :
  forall adapter r module,
    isMiddleware r = true -> exports_callable module = true ->
    let tp := transformPath adapter (path r) in
    route_calls adapter (set_handlers r (handlers_of_module module)) =
      match assoc "default" module with
      | Some d => [RegisterMiddleware tp d]
      | None =>
          match assoc "GET" module with
          | Some g => [RegisterMiddleware tp g]
          | None => []
          end
      end.
Proof.
  intros adapter r module Hmw Hc tp.
  unfold route_calls, tp. cbn [handlers set_handlers isMiddleware path]. rewrite Hmw.
  rewrite !get_handlers_of_module by in_keys.
  unfold js_or.
  pose proof (truthy_callable module "default" Hc ltac:(in_keys)) as Td.
  pose proof (truthy_callable module "GET" Hc ltac:(in_keys)) as Tg.
  unfold has_key, get in Td, Tg. unfold get.
  destruct (assoc "default" module) as [d|]; destruct (assoc "GET" module) as [g|];
  simpl in *; rewrite ?Td, ?Tg; reflexivity.
Qed.

Lemma middleware_handler_selection_witness :
  let adapter := mkAdapter (fun p => p) in
  let r := parseRouteFile "/srv/routes/auth.middleware.ts" "/srv/routes" in
  (isMiddleware r = true /\ exports_callable users_module = true) /\
  route_calls adapter (set_handlers r (handlers_of_module users_module)) =
    [RegisterMiddleware "/auth" (JFun 1)].
Proof.
  intros adapter r.
  assert (H1 : isMiddleware r = true) by reflexivity.
  assert (H2 : exports_callable users_module = true) by reflexivity.
  split; [split; assumption|].
  rewrite (middleware_handler_selection adapter r users_module H1 H2).
  reflexivity.
Defined.

Lemma heap_set_app : forall ds r r' rs,
  heap_set (app ds (r :: rs)) (length ds) r' = app ds (r' :: rs).
Proof. induction ds as [|x ds IH]; intros r r' rs; simpl; [reflexivity|]. rewrite IH. reflexivity. Qed.

Lemma nth_error_app_length : forall (A : Type) (ds : list A) r rs,
  nth_error (app ds (r :: rs)) (length ds) = Some r.
Proof. induction ds as [|x ds IH]; intros r rs; simpl; auto. Qed.

Lemma router_loop_sequential : forall imp adapter rs ds,
  router_loop imp adapter (app ds rs) (seq (length ds) (length rs))
  = sequential_calls imp adapter rs.
Proof.
  intros imp adapter. induction rs as [|r rs IH]; intros ds; simpl; [reflexivity|].
  unfold loadRouteHandlers. rewrite nth_error_app_length.
  destruct (imp (importPath r)) as [module|]; [|reflexivity].
  rewrite heap_set_app, nth_error_app_length.
  replace (app ds (set_handlers r (handlers_of_module module) :: rs))
    with (app (app ds [set_handlers r (handlers_of_module module)]) rs)
    by (rewrite <- app_assoc; reflexivity).
  replace (S (length ds))
    with (length (app ds [set_handlers r (handlers_of_module module)]))
    by (rewrite length_app; simpl; lia).
  rewrite IH. reflexivity.
Qed.

Lemma createRouter_sequential : forall lc imp adapter cwd routesDir root,
  createRouter lc imp adapter cwd routesDir root
  = sequential_calls imp adapter (parseRoutes lc cwd routesDir root).
Proof.
  intros. unfold createRouter. apply (router_loop_sequential imp adapter _ []).
Qed.

Lemma js_sort_middleware_first : forall lc l,
  exists mws rts, js_sort (compareRoutes lc) l = app mws rts /\
    Forall (fun r => isMiddleware r = true) mws /\
    Forall (fun r => isMiddleware r = false) rts.
Proof.
  intros lc l.
  assert (Hs : StronglySorted mw_le (js_sort (compareRoutes lc) l)).
  { apply Sorted_StronglySorted.
    - intros a b c Hab Hbc Hc. apply Hab, Hbc, Hc.
    - apply js_sort_sorted_gen; unfold mw_le, compareRoutes; intros a b;
      destruct (isMiddleware a), (isMiddleware b); simpl; auto; lia. }
  induction Hs as [|x l' Hs IH Hall].
  - exists [], []. auto.
  - destruct IH as [mws [rts [E [Hm Hr]]]].
    destruct (isMiddleware x) eqn:Hx.
    + exists (x :: mws), rts. rewrite E. auto.
    + exists [], (x :: l'). split; [reflexivity|]. split; [constructor|].
      constructor; [exact Hx|].
      rewrite Forall_forall in Hall |- *. intros y Hy.
      destruct (isMiddleware y) eqn:Hy'; [|reflexivity].
      rewrite (Hall y Hy Hy') in Hx. discriminate.
Qed.

Lemma register_methods_calls : forall tp ms acc,
  Forall (fun c => is_middleware_call c = false) (fst (register_methods tp ms acc)).
Proof.
  induction ms as [|[m h] ms IH]; intros acc; simpl; [constructor|].
  specialize (IH (app acc [toLowerCase m])).
  destruct (register_methods tp ms (app acc [toLowerCase m])) as [cs rm]. simpl in *.
  constructor; [reflexivity|exact IH].
Qed.

Lemma route_calls_kind : forall adapter r,
  Forall (fun c => is_middleware_call c = isMiddleware r) (route_calls adapter r).
Proof.
  intros adapter r. unfold route_calls.
  destruct (isMiddleware r) eqn:Hm.
  - destruct (truthy _); repeat constructor.
  - pose proof (register_methods_calls (transformPath adapter (path r))
                  (collect_methods (handlers r)) []) as H.
    destruct (register_methods _ _ _) as [cs rm]. simpl in H.
    apply Forall_app. split; [exact H|].
    destruct (truthy _); repeat constructor.
Qed.

Lemma sequential_calls_app : forall imp adapter a b,
  sequential_calls imp adapter (app a b) =
  let '(ca, oka) := sequential_calls imp adapter a in
  if oka then let '(cb, okb) := sequential_calls imp adapter b in (app ca cb, okb)
  else (ca, false).
Proof.
  intros imp adapter a b. induction a as [|r a IH]; simpl.
  - destruct (sequential_calls imp adapter b); reflexivity.
  - destruct (imp (importPath r)) as [module|]; [|reflexivity].
    rewrite IH. destruct (sequential_calls imp adapter a) as [ca [|]].
    + destruct (sequential_calls imp adapter b) as [cb okb]. rewrite app_assoc. reflexivity.
    + reflexivity.
Qed.

Lemma sequential_calls_kind : forall imp adapter rs b,
  Forall (fun r => isMiddleware r = b) rs ->
  Forall (fun c => is_middleware_call c = b) (fst (sequential_calls imp adapter rs)).
Proof.
  intros imp adapter rs b H. induction H as [|r rs Hr Hrs IH]; simpl; [constructor|].
  destruct (imp (importPath r)) as [module|]; simpl; [|constructor].
  destruct (sequential_calls imp adapter rs) as [cs ok]. simpl in *.
  apply Forall_app. split; [|exact IH].
  pose proof (route_calls_kind adapter (set_handlers r (handlers_of_module module))) as K.
  simpl in K. rewrite Hr in K. exact K.
Qed.

(** C9 (registration order mirrors sort order).  [createRouter] handles the
    routes returned by [parseRoutes] one at a time in that order: its calls
    and outcome are those of [sequential_calls] (import a route's module,
    make all of that route's calls, then go to the next route; a rejected
    import ends the run).  Consequently every run's calls are a block of
    [registerMiddleware] calls followed by a block with none, so no
    [registerRoute] or [registerDefaultHandler] call precedes a
    [registerMiddleware] call.  With [auth.middleware.ts] and
    [users.route.ts], [registerMiddleware] comes before [registerRoute]. *)
Theorem createRouter_middleware_first :
  (forall localeCompare imp adapter cwd routesDir root,
     createRouter localeCompare imp adapter cwd routesDir root
       = sequential_calls imp adapter (parseRoutes localeCompare cwd routesDir root) /\
     exists pre post,
       fst (createRouter localeCompare imp adapter cwd routesDir root) = app pre post /\
       Forall (fun c => is_middleware_call c = true) pre /\
       Forall (fun c => is_middleware_call c = false) post)
  /\
  (forall localeCompare cwd,
     createRouter localeCompare auth_users_modules (mkAdapter (fun p => p)) cwd "/srv/routes"
       [File "auth.middleware.ts"; File "users.route.ts"]
     = ([RegisterMiddleware "/auth" (JFun 1); RegisterRoute "GET" "/users" (JFun 2)], true)).
Proof.
  split.
  - intros lc imp adapter cwd routesDir root.
    rewrite createRouter_sequential. split; [reflexivity|].
    unfold parseRoutes.
    destruct (js_sort_middleware_first lc
                (scanDirectory (pathResolve cwd routesDir) (pathResolve cwd routesDir) root))
      as [mws [rts [E [Hm Hr]]]].
    rewrite E, sequential_calls_app.
    pose proof (sequential_calls_kind imp adapter mws true Hm) as Km.
    pose proof (sequential_calls_kind imp adapter rts false Hr) as Kr.
    destruct (sequential_calls imp adapter mws) as [ca [|]]; simpl in Km.
    + destruct (sequential_calls imp adapter rts) as [cb okb]. simpl in Kr.
      exists ca, cb. auto.
    + exists ca, []. rewrite app_nil_r. auto.
  - intros lc cwd. reflexivity.
Qed.

(** ** Further properties of the parser, the router and the adapters *)

Lemma register_methods_spec : forall tp ms acc,
  register_methods tp ms acc =
  (map (fun '(m, h) => RegisterRoute m tp h) ms,
   app acc (map (fun '(m, _) => toLowerCase m) ms)).
Proof.
  induction ms as [|[m h] ms IH]; intros acc; simpl; [rewrite app_nil_r; reflexivity|].
  rewrite IH, <- app_assoc. reflexivity.
Qed.

Lemma collect_methods_names : forall hs m h,
  In (m, h) (collect_methods hs) -> In m route_methods.
Proof.
  intros hs m h H. unfold collect_methods, push_if in H.
  repeat rewrite in_app_iff in H.
  repeat match goal with
  | H : context [if ?b then _ else _] |- _ => destruct b
  end; simpl in H;
  repeat match goal with
  | H : _ \/ _ |- _ => destruct H as [H|H]
  | H : (_, _) = (_, _) |- _ => injection H as <- _; unfold route_methods; simpl; tauto
  | H : False |- _ => destruct H
  end.
Qed.

Lemma lower_route_method : forall m,
  In m route_methods -> In (toLowerCase m) express_allMethods.
Proof.
  intros m H. unfold route_methods in H.
  repeat (destruct H as [<-|H]; [simpl; tauto|]). destruct H.
Qed.

Lemma js_includes_lower : forall l m,
  (forall x, In x l -> In x express_allMethods) -> In m route_methods ->
  js_includes l m = false.
Proof.
  intros l m Hl Hm. unfold js_includes.
  destruct (existsb (String.eqb m) l) eqn:E; [|reflexivity].
  apply existsb_exists in E as [x [Hx Heq]]. apply String.eqb_eq in Heq. subst x.
  specialize (Hl m Hx). unfold route_methods, express_allMethods in *.
  simpl in Hm, Hl.
  repeat (destruct Hm as [<-|Hm]; [simpl in Hl; intuition discriminate|]). destruct Hm.
Qed.

Lemma registered_lower : forall ms : list (string * jsval),
  (forall m h, In (m, h) ms -> In m route_methods) ->
  forall x, In x (map (fun '(m, _) => toLowerCase m) ms) -> In x express_allMethods.
Proof.
  intros ms H x Hx. apply in_map_iff in Hx as [[m h] [<- Hin]].
  apply lower_route_method, (H m h Hin).
Qed.

Lemma unhandled_lower : forall l,
  (forall x, In x l -> In x express_allMethods) ->
  unhandled_methods route_methods l = route_methods.
Proof.
  intros l Hl. unfold unhandled_methods.
  assert (A : forall m, In m route_methods -> js_includes l m = false)
    by (intros; apply js_includes_lower; auto).
  unfold route_methods in *. simpl.
  rewrite !A by (simpl; tauto). reflexivity.
Qed.

Lemma flat_map_map_single : forall (A B C : Type) (f : B -> list C) (g : A -> B) (k : A -> C) l,
  (forall x, f (g x) = [k x]) -> flat_map f (map g l) = map k l.
Proof. intros A B C f g k l H. induction l as [|x l IH]; simpl; [reflexivity|]. rewrite H, IH. reflexivity. Qed.

Lemma route_calls_default : forall adapter r,
  isMiddleware r = false -> truthy (get (handlers r) "default") = true ->
  let tp := transformPath adapter (path r) in
  let ms := collect_methods (handlers r) in
  route_calls adapter r =
    app (map (fun '(m, h) => RegisterRoute m tp h) ms)
        [RegisterDefaultHandler tp (get (handlers r) "default")
           (map (fun '(m, _) => toLowerCase m) ms)].
Proof.
  intros adapter r Hm Hd tp ms. unfold route_calls. rewrite Hm, register_methods_spec, Hd.
  reflexivity.
Qed.

(** X1 (Koa default handler on every method).  For a route file with a
    [default] export, [createRouter] passes [registerDefaultHandler] the
    lower-case names of the methods it registered, while [KoaAdapter]
    filters the upper-case list [GET ... HEAD] against them: no method is
    excluded.  The Koa router gets [router[m](path, h)] for each exported
    method, then [router.register(path, [M], default)] for all seven
    methods, the exported ones included. *)
Theorem koa_default_handler_all_methods : forall r,
  isMiddleware r = false -> truthy (get (handlers r) "default") = true ->
  flat_map koa_call (route_calls koaAdapter r) =
    app (map (fun '(m, h) => AppMethod (toLowerCase m) (path r) h) (collect_methods (handlers r)))
        (map (fun m => RouterRegister (path r) [m] (get (handlers r) "default")) route_methods).
Proof.
  intros r Hm Hd. rewrite (route_calls_default koaAdapter r Hm Hd).
  rewrite flat_map_app. cbn [flat_map koa_call]. rewrite app_nil_r.
  rewrite unhandled_lower by (apply registered_lower, collect_methods_names).
  f_equal. apply flat_map_map_single. intros [m h]. reflexivity.
Qed.

(** X2 (Hono default handler on every method).  Through [createRouter], a
    route file with a [default] export and no method export gets
    [app.all(path, default)]; with at least one method export, it gets
    [app.on(M, path, default)] for all seven methods, the exported ones
    included, after the method registrations. *)
Theorem hono_default_handler_all_methods : forall r,
  isMiddleware r = false -> truthy (get (handlers r) "default") = true ->
  let d := get (handlers r) "default" in
  flat_map hono_call (route_calls honoAdapter r) =
    app (flat_map (fun '(m, h) => hono_call (RegisterRoute m (path r) h)) (collect_methods (handlers r)))
        (match collect_methods (handlers r) with
         | [] => [AppAll (path r) d]
         | _ :: _ => map (fun m => AppOn m (path r) d) route_methods
         end).
Proof.
  intros r Hm Hd d. rewrite (route_calls_default honoAdapter r Hm Hd).
  rewrite flat_map_app. cbn [flat_map hono_call]. rewrite app_nil_r. f_equal.
  - rewrite flat_map_concat_map, map_map, <- flat_map_concat_map.
    apply flat_map_ext. intros [m h]. reflexivity.
  - pose proof (registered_lower _ (collect_methods_names (handlers r))) as L.
    destruct (collect_methods (handlers r)) as [|[m h] ms]; [reflexivity|].
    rewrite (unhandled_lower _ L). reflexivity.
Qed.


Lemma list_prefix_inv : forall a b, list_prefix a b = true -> exists c, b = app a c.
Proof.
  induction a as [|x a IH]; intros b H; [exists b; reflexivity|].
  destruct b as [|y b]; simpl in H; [discriminate|].
  apply andb_prop in H as [Hxy H]. unfold ascii_eqb in Hxy. apply Ascii.eqb_eq in Hxy. subst y.
  destruct (IH b H) as [c ->]. exists c. reflexivity.
Qed.

Lemma endsWith_inv : forall suf s, endsWith suf s = true -> exists q, s = q ++ suf.
Proof.
  intros suf s H. unfold endsWith in H. apply list_prefix_inv in H as [c Hc].
  exists (string_of_list_ascii (rev c)).
  rewrite <- (string_of_list_ascii_of_string s), <- (string_of_list_ascii_of_string suf).
  rewrite <- (rev_involutive (list_ascii_of_string s)), Hc, rev_app_distr, rev_involutive.
  generalize (rev c) as l. intros l. induction l as [|x l IH]; simpl; [reflexivity|].
  rewrite IH. reflexivity.
Qed.


(** X6 (Fastify middleware prefix).  [FastifyAdapter.registerMiddleware]
    adds one [onRequest] hook whose prefix is the middleware path with one
    trailing [/*] removed (and the path itself otherwise); the hook runs for
    every URL that extends the prefix, whatever follows it. *)
Theorem fastify_middleware_prefix : forall p h,
  exists prefix,
    fastify_call (RegisterMiddleware p h) = [OnRequestHook prefix h] /\
    p = prefix ++ (if endsWith "/*" p then "/*" else "") /\
    (forall rest, hook_runs prefix (prefix ++ rest) = true).
Proof.
  intros p h. exists (fastify_middlewarePath p). split; [reflexivity|]. split.
  - unfold fastify_middlewarePath. destruct (endsWith "/*" p) eqn:E.
    + destruct (endsWith_inv _ _ E) as [q ->]. unfold slice_drop_end.
      rewrite string_length_app. simpl (String.length "/*").
      replace (String.length q + 2 - 2) with (String.length q) by lia.
      rewrite substring_app_prefix. reflexivity.
    + rewrite string_app_nil_r. reflexivity.
  - intros rest. apply startsWith_app.
Qed.

Lemma replace_star_id : forall p, replace_star p = p.
Proof.
  intros p. induction p as [|c p IH]; simpl; [reflexivity|].
  rewrite IH. unfold ascii_eqb.
  destruct (Ascii.eqb c "*"%char) eqn:E; [apply Ascii.eqb_eq in E; subst c|]; reflexivity.
Qed.

(** X5 ([ExpressAdapter.transformPath]).  Replacing every [*] by [*]
    returns the path unchanged. *)
Theorem express_transformPath_identity : forall p,
  transformPath expressAdapter p = p.
Proof. intros p. apply replace_star_id. Qed.

Lemma split_on_nonempty : forall c s, split_on c s <> [].
Proof.
  intros c s. destruct s as [|x s]; simpl; [discriminate|].
  destruct (ascii_eqb x c); [discriminate|].
  destruct (split_on c s); discriminate.
Qed.

Lemma split_on_app_sep : forall c a b,
  split_on c (a ++ String c b) = app (split_on c a) (split_on c b).
Proof.
  intros c a b. induction a as [|x a IH]; simpl.
  - unfold ascii_eqb. rewrite Ascii.eqb_refl. reflexivity.
  - rewrite IH. destruct (ascii_eqb x c); [reflexivity|].
    pose proof (split_on_nonempty c a) as N.
    destruct (split_on c a) as [|p ps]; [contradiction N; reflexivity|]. reflexivity.
Qed.

Lemma join_cons_cons : forall sep x y l,
  join sep (x :: y :: l) = x ++ sep ++ join sep (y :: l).
Proof. reflexivity. Qed.

Lemma join_split : forall c s, join (String c "") (split_on c s) = s.
Proof.
  intros c s. induction s as [|x s IH]; simpl; [reflexivity|].
  pose proof (split_on_nonempty c s) as N.
  destruct (ascii_eqb x c) eqn:E.
  - unfold ascii_eqb in E. apply Ascii.eqb_eq in E. subst x.
    destruct (split_on c s) as [|p ps]; [contradiction N; reflexivity|].
    rewrite join_cons_cons, IH. reflexivity.
  - destruct (split_on c s) as [|p ps]; [contradiction N; reflexivity|].
    destruct ps as [|q ps]; [simpl in *; rewrite IH; reflexivity|].
    rewrite join_cons_cons. rewrite join_cons_cons in IH. rewrite <- IH. reflexivity.
Qed.

Lemma common_prefix_app : forall l m, common_prefix l (app l m) = length l.
Proof.
  induction l as [|x l IH]; intros m; simpl; [destruct m; reflexivity|].
  rewrite String.eqb_refl, IH. reflexivity.
Qed.

Lemma skipn_length_app : forall (A : Type) (l m : list A), skipn (length l) (app l m) = m.
Proof. induction l as [|x l IH]; intros m; simpl; auto. Qed.

(** [pathRelative] of a path under [from] *)
Lemma pathRelative_join : forall routesDir rel,
  pathRelative routesDir (routesDir ++ "/" ++ rel) = rel.
Proof.
  intros routesDir rel. unfold pathRelative.
  change ("/" ++ rel) with (String "/"%char rel).
  rewrite split_on_app_sep, common_prefix_app, Nat.sub_diag, skipn_length_app.
  apply (join_split "/"%char).
Qed.

(** X7 ([pathRelative] round trip).  For every routes directory [R] and
    relative path [rel], [pathRelative(R, R + '/' + rel)] is [rel]. *)
Theorem pathRelative_round_trip : forall routesDir rel,
  pathRelative routesDir (routesDir ++ "/" ++ rel) = rel.
Proof. apply pathRelative_join. Qed.

Lemma includes_cons : forall x r,
  includes "//" (String x r) = startsWith "//" (String x r) || includes "//" r.
Proof. reflexivity. Qed.

Lemma startsWith_dd_cons : forall x r,
  startsWith "//" (String x r) = ascii_eqb x "/"%char && startsWith "/" r.
Proof.
  intros x r. unfold startsWith, ascii_eqb. cbn [String.prefix].
  destruct (ascii_dec "/"%char x) as [<-|N]; [reflexivity|].
  destruct (Ascii.eqb x "/"%char) eqn:E; [apply Ascii.eqb_eq in E; congruence|reflexivity].
Qed.

Lemma startsWith_slash_cons : forall x r,
  startsWith "/" (String x r) = ascii_eqb x "/"%char.
Proof.
  intros x r. unfold startsWith, ascii_eqb. cbn [String.prefix].
  destruct (ascii_dec "/"%char x) as [<-|N]; [destruct r; reflexivity|].
  destruct (Ascii.eqb x "/"%char) eqn:E; [apply Ascii.eqb_eq in E; congruence|reflexivity].
Qed.

Lemma collapse_true_head : forall s, startsWith "/" (collapse_aux true s) = false.
Proof.
  induction s as [|x s IH]; simpl; [reflexivity|].
  destruct (ascii_eqb x "/"%char) eqn:E; [exact IH|].
  rewrite startsWith_slash_cons. exact E.
Qed.

Lemma collapse_no_dd : forall b s, includes "//" (collapse_aux b s) = false.
Proof.
  intros b s. revert b. induction s as [|x s IH]; intros b; simpl; [reflexivity|].
  destruct (ascii_eqb x "/"%char) eqn:E.
  - destruct b; [apply IH|].
    rewrite includes_cons, startsWith_dd_cons, collapse_true_head, IH.
    rewrite andb_false_r. reflexivity.
  - rewrite includes_cons, startsWith_dd_cons, E, IH. reflexivity.
Qed.

(** X8 (no [//] from the path helpers).  The results of [pathJoin] and of
    [pathResolve] never contain two consecutive slashes. *)
Theorem pathJoin_pathResolve_no_double_slash : forall a b,
  includes "//" (pathJoin a b) = false /\ includes "//" (pathResolve a b) = false.
Proof. intros a b. split; apply collapse_no_dd. Qed.

(** a string without [//] is left as it is by the collapse *)
Lemma collapse_id : forall b s,
  (b = true -> startsWith "/" s = false) -> includes "//" s = false ->
  collapse_aux b s = s.
Proof.
  intros b s. revert b. induction s as [|x s IH]; intros b Hb Hs; simpl; [reflexivity|].
  rewrite includes_cons, startsWith_dd_cons in Hs. apply orb_false_iff in Hs as [H1 H2].
  destruct (ascii_eqb x "/"%char) eqn:E.
  - destruct b.
    + specialize (Hb eq_refl). rewrite startsWith_slash_cons, E in Hb. discriminate.
    + unfold ascii_eqb in E. apply Ascii.eqb_eq in E. subst x.
      rewrite IH; [reflexivity| |exact H2]. intros _. exact H1.
  - rewrite IH; [reflexivity|discriminate|exact H2].
Qed.

Lemma includes_no_slash : forall x rest,
  no_char "/"%char x = true -> includes "//" (x ++ rest) = includes "//" rest.
Proof.
  induction x as [|y x IH]; intros rest H; [reflexivity|].
  change (String y x ++ rest) with (String y (x ++ rest)).
  unfold no_char in H. simpl in H. apply andb_prop in H as [Hy Hx].
  apply negb_true_iff in Hy.
  rewrite includes_cons, startsWith_dd_cons, Hy. simpl orb.
  apply IH. exact Hx.
Qed.

Lemma includes_slash_word : forall x rest,
  x <> "" -> no_char "/"%char x = true ->
  includes "//" (String "/"%char (x ++ rest)) = includes "//" rest.
Proof.
  intros x rest Hne H. destruct x as [|y x]; [contradiction Hne; reflexivity|].
  pose proof H as Hw.
  rewrite includes_cons, startsWith_dd_cons. simpl (String y x ++ rest).
  rewrite startsWith_slash_cons.
  unfold no_char in H. simpl in H. apply andb_prop in H as [Hy _].
  apply negb_true_iff in Hy. rewrite Hy, andb_false_r, orb_false_l.
  change (String y (x ++ rest)) with (String y x ++ rest).
  apply includes_no_slash. exact Hw.
Qed.

Lemma slash_join_no_dd : forall l,
  Forall path_word l -> includes "//" ("/" ++ join "/" l) = false.
Proof.
  induction l as [|x l IH]; intros H; [reflexivity|].
  inversion H as [|? ? [Hne Hx] Hl]; subst.
  destruct l as [|y l].
  - change ("/" ++ join "/" [x]) with (String "/"%char x).
    rewrite <- (string_app_nil_r x).
    rewrite includes_slash_word by assumption. reflexivity.
  - rewrite join_cons_cons. change ("/" ++ (x ++ "/" ++ join "/" (y :: l)))
      with (String "/"%char (x ++ ("/" ++ join "/" (y :: l)))).
    rewrite includes_slash_word by assumption. apply IH. exact Hl.
Qed.

Lemma no_char_cons : forall c x s,
  no_char c (String x s) = negb (ascii_eqb x c) && no_char c s.
Proof. reflexivity. Qed.

Lemma split_on_no_char_all : forall c s, Forall (fun p => no_char c p = true) (split_on c s).
Proof.
  intros c s. induction s as [|x s IH]; simpl; [repeat constructor|].
  destruct (ascii_eqb x c) eqn:E; [constructor; [reflexivity|exact IH]|].
  destruct (split_on c s) as [|p ps]; [repeat constructor; rewrite no_char_cons, E; reflexivity|].
  inversion IH as [|? ? Hp Hps]; subst.
  constructor; [rewrite no_char_cons, E, Hp; reflexivity|exact Hps].
Qed.

Lemma no_char_substring : forall c s a n,
  no_char c s = true -> no_char c (substring a n s) = true.
Proof.
  intros c s. induction s as [|x s IH]; intros a n H; destruct a, n; simpl; try reflexivity.
  - rewrite no_char_cons in *. apply andb_prop in H as [Hx Hs].
    rewrite Hx, IH by exact Hs. reflexivity.
  - rewrite no_char_cons in H. apply andb_prop in H as [_ Hs]. apply IH. exact Hs.
  - rewrite no_char_cons in H. apply andb_prop in H as [_ Hs]. apply IH. exact Hs.
Qed.

Lemma tokenize_words : forall s cur b segs,
  Forall path_word segs -> no_char "/"%char s = true -> no_char "/"%char cur = true ->
  Forall path_word (tokenize_aux s cur b segs).
Proof.
  induction s as [|x s IH]; intros cur b segs Hsegs Hs Hcur; simpl.
  - destruct (String.eqb cur "") eqn:E; [exact Hsegs|].
    apply Forall_app. split; [exact Hsegs|]. constructor; [|constructor].
    split; [intros ->; discriminate|exact Hcur].
  - rewrite no_char_cons in Hs. apply andb_prop in Hs as [Hx Hs].
    destruct (ascii_eqb x "["%char); [apply IH; auto; rewrite no_char_app, Hcur; reflexivity|].
    destruct (ascii_eqb x "]"%char); [apply IH; auto; rewrite no_char_app, Hcur; reflexivity|].
    destruct (ascii_eqb x "."%char && negb b).
    + destruct (String.eqb cur "") eqn:E; [apply IH; auto|].
      apply IH; auto. apply Forall_app. split; [exact Hsegs|]. constructor; [|constructor].
      split; [intros ->; discriminate|exact Hcur].
    + apply IH; auto. rewrite no_char_app, Hcur, no_char_cons, Hx. reflexivity.
Qed.

Lemma convert_segments_words : forall segs ps cs,
  Forall (fun s => no_char "/"%char s = true) segs -> Forall path_word cs ->
  Forall path_word (snd (fst (convert_segments segs ps cs))).
Proof.
  induction segs as [|s segs IH]; intros ps cs Hsegs Hcs; simpl; [exact Hcs|].
  inversion Hsegs as [|? ? Hs Hr]; subst.
  destruct (is_catch_all s); [exact Hcs|].
  destruct (is_dynamic s).
  - apply IH; [exact Hr|]. apply Forall_app. split; [exact Hcs|]. constructor; [|constructor].
    split; [discriminate|]. change (":" ++ slice_to_last 1 s) with (String ":"%char (slice_to_last 1 s)).
    rewrite no_char_cons. apply no_char_substring. exact Hs.
  - destruct (negb (String.eqb s "")) eqn:E; apply IH; auto.
    apply Forall_app. split; [exact Hcs|]. constructor; [|constructor].
    split; [|exact Hs]. intros ->. discriminate.
Qed.

Lemma route_parts_words : forall p, Forall (fun s => no_char "/"%char s = true) (route_parts p).
Proof.
  intros p. unfold route_parts. apply Forall_forall. intros x Hx.
  apply filter_In in Hx as [Hx _].
  exact (proj1 (Forall_forall _ _) (split_on_no_char_all getPathSep p) x Hx).
Qed.

Lemma converted_parts_words : forall parts,
  Forall (fun s => no_char "/"%char s = true) parts ->
  Forall path_word (snd (fst (convert_parts parts [] []))).
Proof.
  intros parts H. rewrite convert_parts_flat. apply convert_segments_words; [|constructor].
  apply Forall_forall. intros s Hs. apply in_flat_map in Hs as [part [Hp Hs]].
  rewrite Forall_forall in H.
  assert (T : Forall path_word (tokenize part)).
  { apply tokenize_words; [constructor|apply H; exact Hp|reflexivity]. }
  rewrite Forall_forall in T. apply (T s Hs).
Qed.

Lemma join_app_single : forall sep l x,
  l <> [] -> join sep (app l [x]) = join sep l ++ sep ++ x.
Proof.
  intros sep l x. induction l as [|y l IH]; intros H; [contradiction H; reflexivity|].
  destruct l as [|z l]; [reflexivity|].
  change (app (y :: z :: l) [x]) with (y :: app (z :: l) [x]).
  change (app (z :: l) [x]) with (z :: app l [x]).
  rewrite join_cons_cons. change (z :: app l [x]) with (app (z :: l) [x]).
  rewrite IH by discriminate. rewrite join_cons_cons, !string_app_assoc. reflexivity.
Qed.

Lemma parseRouteFile_double_slash : forall filePath routesDir,
  includes "//" (path (parseRouteFile filePath routesDir)) = true ->
  path (parseRouteFile filePath routesDir) = "//*".
Proof.
  intros filePath routesDir. unfold parseRouteFile.
  pose proof (converted_parts_words _ (route_parts_words
                (strip_route_suffix (pathRelative routesDir filePath)))) as W.
  destruct (convert_parts _ [] []) as [[ps cs] hasCatchAll]. simpl in W. cbn [path].
  assert (C : collapse_slashes ("/" ++ join "/" cs) = "/" ++ join "/" cs).
  { apply collapse_id; [discriminate|]. apply slash_join_no_dd. exact W. }
  rewrite C. intros H. destruct hasCatchAll.
  - destruct cs as [|c cs]; [reflexivity|].
    exfalso. assert (E : ("/" ++ join "/" (c :: cs)) ++ "/*" = "/" ++ join "/" (app (c :: cs) ["*"])).
    { rewrite string_app_assoc, join_app_single by discriminate. reflexivity. }
    rewrite E, slash_join_no_dd in H; [discriminate|].
    apply Forall_app. split; [exact W|]. repeat constructor. discriminate.
  - rewrite slash_join_no_dd in H by exact W. discriminate.
Qed.

Lemma endsWith_no_char : forall c suf s,
  no_char c s = true -> no_char c suf = false -> endsWith suf s = false.
Proof.
  intros c suf s Hs Hsuf. destruct (endsWith suf s) eqn:E; [|reflexivity].
  apply endsWith_inv in E as [q ->]. rewrite no_char_app, Hsuf, andb_false_r in Hs.
  discriminate.
Qed.

Lemma eqb_no_char : forall c s t,
  no_char c s = true -> no_char c t = false -> String.eqb s t = false.
Proof.
  intros c s t Hs Ht. destruct (String.eqb s t) eqn:E; [|reflexivity].
  apply String.eqb_eq in E. subst. congruence.
Qed.

Lemma route_parts_index : forall n,
  route_parts (n ++ "/index") = route_parts n.
Proof.
  intros n. unfold route_parts. change ("/index") with (String getPathSep "index").
  rewrite split_on_app_sep, filter_app. simpl. apply app_nil_r.
Qed.

Ltac ends_false := rewrite ?endsWith_app_l; reflexivity.

Lemma strip_route_files : forall n,
  no_char "."%char n = true ->
  strip_route_suffix (n ++ ".route.ts") = n /\
  strip_route_suffix (n ++ ".route.js") = n /\
  strip_route_suffix (n ++ "/route.ts") = n /\
  strip_route_suffix (n ++ "/route.js") = n /\
  strip_route_suffix (n ++ "/index.route.ts") = n ++ "/index" /\
  strip_route_suffix (n ++ "/index.route.js") = n ++ "/index".
Proof.
  intros n Hn.
  assert (Hi : no_char "."%char (n ++ "/index") = true) by (rewrite no_char_app, Hn; reflexivity).
  assert (E : forall s suf, no_char "."%char s = true -> suf = "/route.ts" \/ suf = "/route.js" ->
                endsWith suf s = false)
    by (intros s suf Hs [-> | ->]; apply (endsWith_no_char "."%char); auto).
  assert (Q : forall s, no_char "."%char s = true ->
                String.eqb s "route.ts" || String.eqb s "route.js" = false)
    by (intros s Hs; rewrite !(eqb_no_char "."%char s) by (auto || reflexivity); reflexivity).
  unfold strip_route_suffix, replace_ext_suffix.
  change (".middleware." ++ "ts") with ".middleware.ts".
  change (".middleware." ++ "js") with ".middleware.js".
  change (".route." ++ "ts") with ".route.ts". change (".route." ++ "js") with ".route.js".
  change ("/route." ++ "ts") with "/route.ts". change ("/route." ++ "js") with "/route.js".
  repeat split.
  - rewrite (replace_suffix_no ".middleware.js") by ends_false.
    assert (M : endsWith ".middleware.ts" (n ++ ".route.ts") = false) by ends_false.
    rewrite M, endsWith_app, replace_suffix_app, !E, !replace_suffix_no, Q by auto.
    reflexivity.
  - assert (M : endsWith ".middleware.ts" (n ++ ".route.js") = false) by ends_false.
    rewrite M, (replace_suffix_no ".middleware.js") by ends_false.
    assert (R : endsWith ".route.ts" (n ++ ".route.js") = false) by ends_false.
    rewrite R, replace_suffix_app, !E, !replace_suffix_no, Q by auto. reflexivity.
  - assert (M : endsWith ".middleware.ts" (n ++ "/route.ts") = false) by ends_false.
    rewrite M, (replace_suffix_no ".middleware.js") by ends_false.
    assert (R : endsWith ".route.ts" (n ++ "/route.ts") = false) by ends_false.
    rewrite R, (replace_suffix_no ".route.js") by ends_false.
    rewrite endsWith_app, replace_suffix_app, Q by auto. reflexivity.
  - assert (M : endsWith ".middleware.ts" (n ++ "/route.js") = false) by ends_false.
    rewrite M, (replace_suffix_no ".middleware.js") by ends_false.
    assert (R : endsWith ".route.ts" (n ++ "/route.js") = false) by ends_false.
    rewrite R, (replace_suffix_no ".route.js") by ends_false.
    assert (R' : endsWith "/route.ts" (n ++ "/route.js") = false) by ends_false.
    rewrite R', replace_suffix_app, Q by auto. reflexivity.
  - assert (M : endsWith ".middleware.ts" (n ++ "/index.route.ts") = false) by ends_false.
    rewrite M, (replace_suffix_no ".middleware.js") by ends_false.
    replace (n ++ "/index.route.ts") with ((n ++ "/index") ++ ".route.ts")
      by (rewrite string_app_assoc; reflexivity).
    rewrite endsWith_app, replace_suffix_app, !E, !replace_suffix_no, Q by auto.
    reflexivity.
  - assert (M : endsWith ".middleware.ts" (n ++ "/index.route.js") = false) by ends_false.
    rewrite M, (replace_suffix_no ".middleware.js") by ends_false.
    assert (R : endsWith ".route.ts" (n ++ "/index.route.js") = false) by ends_false.
    rewrite R.
    replace (n ++ "/index.route.js") with ((n ++ "/index") ++ ".route.js")
      by (rewrite string_app_assoc; reflexivity).
    rewrite replace_suffix_app, !E, !replace_suffix_no, Q by auto. reflexivity.
Qed.

(** X10 (equivalent file layouts).  For a relative directory path [n]
    without a dot, the files [n.route.ext], [n/route.ext] and
    [n/index.route.ext] under the routes directory compile to the same path
    and the same parameter names. *)
Theorem route_file_layouts_same_route : forall routesDir n ext,
  (ext = "ts" \/ ext = "js") -> no_char "."%char n = true ->
  let route rel := parseRouteFile (routesDir ++ "/" ++ rel) routesDir in
  path (route (n ++ ".route." ++ ext)) = path (route (n ++ "/route." ++ ext)) /\
  path (route (n ++ "/index.route." ++ ext)) = path (route (n ++ "/route." ++ ext)) /\
  paramNames (route (n ++ ".route." ++ ext)) = paramNames (route (n ++ "/route." ++ ext)) /\
  paramNames (route (n ++ "/index.route." ++ ext)) = paramNames (route (n ++ "/route." ++ ext)).
Proof.
  intros routesDir n ext Hext Hn route. unfold route, parseRouteFile.
  rewrite !pathRelative_join.
  destruct (strip_route_files n Hn) as [A1 [A2 [A3 [A4 [A5 A6]]]]].
  destruct Hext as [-> | ->]; simpl (_ ++ "ts"); simpl (_ ++ "js");
    rewrite ?A1, ?A2, ?A3, ?A4, ?A5, ?A6, ?route_parts_index;
    destruct (convert_parts (route_parts n) [] []) as [[ps cs] h];
    repeat split.
Qed.

Lemma route_file_layouts_same_route_witness :
  (("ts" = "ts" \/ "ts" = "js") /\ no_char "."%char "users" = true) /\
  path (parseRouteFile ("/srv/routes" ++ "/" ++ "users" ++ "/index.route." ++ "ts") "/srv/routes")
  = path (parseRouteFile ("/srv/routes" ++ "/" ++ "users" ++ "/route." ++ "ts") "/srv/routes").
Proof.
  assert (H1 : "ts" = "ts" \/ "ts" = "js") by (left; reflexivity).
  assert (H2 : no_char "."%char "users" = true) by reflexivity.
  split; [split; assumption|].
  exact (proj1 (proj2 (route_file_layouts_same_route "/srv/routes" "users" "ts" H1 H2))).
Defined.

Lemma insert_by_perm : forall cmp x l, Permutation (insert_by cmp x l) (x :: l).
Proof.
  intros cmp x l. induction l as [|y l IH]; simpl; [reflexivity|].
  destruct (0 <? cmp y x)%Z; [reflexivity|].
  rewrite IH. apply perm_swap.
Qed.

Lemma js_sort_perm : forall cmp l, Permutation (js_sort cmp l) l.
Proof.
  intros cmp l. unfold js_sort.
  assert (G : forall acc, Permutation (fold_left (fun acc x => insert_by cmp x acc) l acc)
                                      (app l acc)).
  { induction l as [|x l IH]; intros acc; simpl; [reflexivity|].
    rewrite IH, insert_by_perm. apply Permutation_sym, Permutation_middle. }
  rewrite G, app_nil_r. reflexivity.
Qed.

Lemma scanEntry_length : forall routesDir dir e,
  length (scanEntry routesDir dir e) = count_qualifying e.
Proof.
  fix IH 3. intros routesDir dir [name | name entries].
  - simpl. destruct (qualifies name); reflexivity.
  - simpl. generalize (pathJoin dir name) as d. intros d.
    revert entries. fix IHl 1. intros [|e es]; [reflexivity|].
    simpl. rewrite length_app, IH, IHl. reflexivity.
Qed.

(** X11 (one route per route file).  [parseRoutes] returns a permutation of
    the routes of the scan (the sort only reorders them), and their number
    is the number of qualifying files in the directory tree. *)
Theorem parseRoutes_one_route_per_file : forall localeCompare cwd routesDir root,
  let rd := pathResolve cwd routesDir in
  Permutation (parseRoutes localeCompare cwd routesDir root) (scanDirectory rd rd root) /\
  length (parseRoutes localeCompare cwd routesDir root) = list_sum (map count_qualifying root).
Proof.
  intros lc cwd routesDir root rd. unfold parseRoutes. fold rd.
  split; [apply js_sort_perm|].
  rewrite (Permutation_length (js_sort_perm _ _)). unfold scanDirectory.
  induction root as [|e es IH]; simpl; [reflexivity|].
  rewrite length_app, scanEntry_length, IH. reflexivity.
Qed.

Lemma sequential_calls_ok : forall imp adapter rs,
  snd (sequential_calls imp adapter rs) = true <->
  Forall (fun r => imp (importPath r) <> None) rs.
Proof.
  intros imp adapter rs. induction rs as [|r rs IH]; simpl.
  - split; constructor.
  - destruct (imp (importPath r)) as [module|] eqn:E.
    + destruct (sequential_calls imp adapter rs) as [cs ok]. simpl in *. rewrite IH.
      split; [intros H; constructor; [congruence|exact H]|intros H; inversion H; assumption].
    + split; [discriminate|intros H; inversion H; congruence].
Qed.

Lemma sequential_calls_stop : forall imp adapter pre r post,
  Forall (fun r => imp (importPath r) <> None) pre -> imp (importPath r) = None ->
  sequential_calls imp adapter (app pre (r :: post))
  = (fst (sequential_calls imp adapter pre), false).
Proof.
  intros imp adapter pre r post Hpre Hr. rewrite sequential_calls_app.
  pose proof (proj2 (sequential_calls_ok imp adapter pre) Hpre) as Ok.
  destruct (sequential_calls imp adapter pre) as [ca oka]. simpl in Ok |- *. subst oka.
  simpl. rewrite Hr, app_nil_r. reflexivity.
Qed.

(** X12 (a rejected import stops [createRouter]).  For the routes
    returned by [parseRoutes] and adapter calls that return normally: if the
    promise of [createRouter] resolves, the module of every route imported;
    when the first rejected import is that of route [r], the promise rejects
    and the calls made are those of the routes before [r], none for [r] or
    any later route. *)
Theorem createRouter_import_failure : forall localeCompare imp adapter cwd routesDir root,
  let routes := parseRoutes localeCompare cwd routesDir root in
  (snd (createRouter localeCompare imp adapter cwd routesDir root) = true ->
   Forall (fun r => imp (importPath r) <> None) routes) /\
  (forall pre r post, routes = app pre (r :: post) ->
     Forall (fun r => imp (importPath r) <> None) pre -> imp (importPath r) = None ->
     createRouter localeCompare imp adapter cwd routesDir root
     = (fst (sequential_calls imp adapter pre), false)).
Proof.
  intros lc imp adapter cwd routesDir root routes.
  rewrite createRouter_sequential. split.
  - apply sequential_calls_ok.
  - intros pre r post E Hpre Hr. fold routes. rewrite E. apply sequential_calls_stop; assumption.
Qed.

(** X9 (where [//] can appear in a route path).  If the path compiled by
    [parseRouteFile] contains [//], it is exactly [//*]: the slash collapse
    leaves no [//], and the appended [/*] makes one only when no segment is
    compiled before the catch-all. *)
Theorem route_path_double_slash : forall filePath routesDir,
  includes "//" (path (parseRouteFile filePath routesDir)) = true ->
  path (parseRouteFile filePath routesDir) = "//*".
Proof. exact parseRouteFile_double_slash. Qed.

(** The scan visits every file of the tree and makes one route of each
    qualifying one, in scan order. *)
Lemma scanEntry_files : forall routesDir dir e,
  scanEntry routesDir dir e
  = map (route_of_file routesDir) (qualifying_files (tree_files dir e)).
Proof.
  fix IH 3. intros routesDir dir [name | name entries].
  - simpl. destruct (qualifies name); reflexivity.
  - simpl. generalize (pathJoin dir name) as d. intros d.
    revert entries. fix IHl 1. intros [|e es]; [reflexivity|].
    simpl. rewrite IH, IHl. unfold qualifying_files.
    rewrite filter_app, map_app. reflexivity.
Qed.

Lemma scanDirectory_files : forall routesDir dir root,
  scanDirectory routesDir dir root
  = map (route_of_file routesDir) (qualifying_files (flat_map (tree_files dir) root)).
Proof.
  intros routesDir dir root. unfold scanDirectory.
  induction root as [|e es IH]; simpl; [reflexivity|].
  rewrite scanEntry_files, IH. unfold qualifying_files.
  rewrite filter_app, map_app. reflexivity.
Qed.

Lemma parseRoutes_files : forall localeCompare cwd routesDir root,
  let rd := pathResolve cwd routesDir in
  Permutation (parseRoutes localeCompare cwd routesDir root)
    (map (route_of_file rd) (qualifying_files (flat_map (tree_files rd) root))).
Proof.
  intros lc cwd routesDir root rd. unfold parseRoutes. fold rd.
  rewrite js_sort_perm, scanDirectory_files. reflexivity.
Qed.

Lemma parseRoutes_from_files : forall localeCompare cwd routesDir root r,
  In r (parseRoutes localeCompare cwd routesDir root) ->
  exists filePath, r = parseRouteFile filePath (pathResolve cwd routesDir).
Proof.
  intros lc cwd routesDir root r H.
  apply (Permutation_in _ (parseRoutes_files lc cwd routesDir root)) in H.
  apply in_map_iff in H as [[d n] [<- _]]. eexists. reflexivity.
Qed.

(** X4 (Express: one handler per method).  Through [createRouter], for a
    route file with a [default] export, the Express application gets exactly
    one [app[m](path, h)] call for each method [M] of GET ... HEAD, with [m]
    its lower-case name: [h] is the module's [M] handler when it is exported
    (truthy), and the default handler otherwise ([ExpressAdapter] filters
    lower-case names, which is what [createRouter] passes). *)
Theorem express_each_method_once : forall r,
  isMiddleware r = false -> truthy (get (handlers r) "default") = true ->
  forall m, In m route_methods ->
  calls_for_method (toLowerCase m) (flat_map express_call (route_calls expressAdapter r)) =
    [AppMethod (toLowerCase m) (path r)
       (if truthy (get (handlers r) m) then get (handlers r) m
        else get (handlers r) "default")].
Proof.
  intros r Hm Hd m Hin. rewrite (route_calls_default expressAdapter r Hm Hd).
  cbn [transformPath expressAdapter]. rewrite replace_star_id.
  generalize (get (handlers r) "default") as d. intros d.
  unfold collect_methods, push_if.
  unfold route_methods in Hin; simpl in Hin;
  repeat (destruct Hin as [<-|Hin];
    [destruct (truthy (get (handlers r) "GET")), (truthy (get (handlers r) "POST")),
       (truthy (get (handlers r) "PUT")), (truthy (get (handlers r) "DELETE")),
       (truthy (get (handlers r) "PATCH")), (truthy (get (handlers r) "OPTIONS")),
       (truthy (get (handlers r) "HEAD")); vm_compute; reflexivity|]); destruct Hin.
Qed.

(** C3 (no [//] in a route path), amended: for every route returned by
    [parseRoutes], on any directory tree, the path contains [//] only when it
    is exactly [//*], the path of a catch-all with no segment compiled before
    it (such as [[...all].route.ts] directly in the routes directory); every
    other path has no [//]. *)
Theorem parseRoutes_double_slash_only_root_catch_all :
  forall localeCompare cwd routesDir root r,
    In r (parseRoutes localeCompare cwd routesDir root) ->
    includes "//" (path r) = true -> path r = "//*".
Proof.
  intros lc cwd routesDir root r Hin Hdd.
  destruct (parseRoutes_from_files lc cwd routesDir root r Hin) as [f ->].
  apply parseRouteFile_double_slash. exact Hdd.
Qed.

Lemma parseRoutes_double_slash_only_root_catch_all_witness :
  let r := parseRouteFile "/srv/routes/[...all].route.ts" "/srv/routes" in
  (In r (parseRoutes length_compare "/" "/srv/routes" [File "[...all].route.ts"]) /\
   includes "//" (path r) = true) /\
  path r = "//*".
Proof.
  intros r.
  assert (H1 : In r (parseRoutes length_compare "/" "/srv/routes" [File "[...all].route.ts"]))
    by (left; reflexivity).
  assert (H2 : includes "//" (path r) = true) by reflexivity.
  split; [split; assumption|].
  exact (parseRoutes_double_slash_only_root_catch_all length_compare "/" "/srv/routes"
           [File "[...all].route.ts"] r H1 H2).
Defined.

(** C6 (bare [middleware.ts]), amended: during the traversal every file of
    the tree, at any depth, is tested by name, and [parseRoutes] returns,
    up to order, one route for each qualifying file.  A file named exactly
    [middleware.ts] or [middleware.js], in any directory, does not qualify
    and yields no route, whereas a file named exactly [route.ts] or
    [route.js], in any directory, qualifies and yields one. *)
Theorem bare_middleware_not_scanned :
  forall localeCompare cwd routesDir root,
    let rd := pathResolve cwd routesDir in
    let files := flat_map (tree_files rd) root in
    Permutation (parseRoutes localeCompare cwd routesDir root)
      (map (route_of_file rd) (qualifying_files files)) /\
    (forall dir name, In (dir, name) files ->
       name = "middleware.ts" \/ name = "middleware.js" ->
       ~ In (dir, name) (qualifying_files files)) /\
    (forall dir name, In (dir, name) files ->
       name = "route.ts" \/ name = "route.js" ->
       In (dir, name) (qualifying_files files)).
Proof.
  intros lc cwd routesDir root rd files.
  split; [apply parseRoutes_files|]. split.
  - intros dir name _ Hn Hq. unfold qualifying_files in Hq.
    apply filter_In in Hq as [_ Hq].
    destruct Hn as [-> | ->]; discriminate Hq.
  - intros dir name Hf Hn. unfold qualifying_files. apply filter_In.
    split; [exact Hf|]. destruct Hn as [-> | ->]; reflexivity.
Qed.

Lemma bare_middleware_not_scanned_witness :
  let root := [Dir "admin" [File "middleware.ts"; File "route.ts"]] in
  let files := flat_map (tree_files "/srv/routes") root in
  (In ("/srv/routes/admin", "middleware.ts") files /\
   In ("/srv/routes/admin", "route.ts") files) /\
  ~ In ("/srv/routes/admin", "middleware.ts") (qualifying_files files) /\
  In ("/srv/routes/admin", "route.ts") (qualifying_files files).
Proof.
  intros root files.
  assert (H1 : In ("/srv/routes/admin", "middleware.ts") files) by (left; reflexivity).
  assert (H2 : In ("/srv/routes/admin", "route.ts") files) by (right; left; reflexivity).
  assert (M : "middleware.ts" = "middleware.ts" \/ "middleware.ts" = "middleware.js")
    by (left; reflexivity).
  assert (R : "route.ts" = "route.ts" \/ "route.ts" = "route.js") by (left; reflexivity).
  pose proof (bare_middleware_not_scanned length_compare "/" "/srv/routes" root) as T.
  destruct T as [_ [T1 T2]].
  split; [split; assumption|]. split.
  - exact (T1 "/srv/routes/admin" "middleware.ts" H1 M).
  - exact (T2 "/srv/routes/admin" "route.ts" H2 R).
Defined.

(** ** Witnesses of the adapter statements *)

Lemma koa_default_handler_all_methods_witness :
  let r := set_handlers (parseRouteFile "/srv/routes/users.route.ts" "/srv/routes")
                        (handlers_of_module get_post_default_module) in
  (isMiddleware r = false /\ truthy (get (handlers r) "default") = true) /\
  flat_map koa_call (route_calls koaAdapter r) =
    [AppMethod "get" "/users" (JFun 1); AppMethod "post" "/users" (JFun 2);
     RouterRegister "/users" ["GET"] (JFun 3); RouterRegister "/users" ["POST"] (JFun 3);
     RouterRegister "/users" ["PUT"] (JFun 3); RouterRegister "/users" ["DELETE"] (JFun 3);
     RouterRegister "/users" ["PATCH"] (JFun 3); RouterRegister "/users" ["OPTIONS"] (JFun 3);
     RouterRegister "/users" ["HEAD"] (JFun 3)].
Proof.
  intros r.
  assert (H1 : isMiddleware r = false) by reflexivity.
  assert (H2 : truthy (get (handlers r) "default") = true) by reflexivity.
  split; [split; assumption|].
  rewrite (koa_default_handler_all_methods r H1 H2). reflexivity.
Defined.

Lemma hono_default_handler_all_methods_witness :
  let r := set_handlers (parseRouteFile "/srv/routes/users.route.ts" "/srv/routes")
                        (handlers_of_module get_post_default_module) in
  (isMiddleware r = false /\ truthy (get (handlers r) "default") = true) /\
  flat_map hono_call (route_calls honoAdapter r) =
    [AppMethod "get" "/users" (JFun 1); AppMethod "post" "/users" (JFun 2);
     AppOn "GET" "/users" (JFun 3); AppOn "POST" "/users" (JFun 3);
     AppOn "PUT" "/users" (JFun 3); AppOn "DELETE" "/users" (JFun 3);
     AppOn "PATCH" "/users" (JFun 3); AppOn "OPTIONS" "/users" (JFun 3);
     AppOn "HEAD" "/users" (JFun 3)].
Proof.
  intros r.
  assert (H1 : isMiddleware r = false) by reflexivity.
  assert (H2 : truthy (get (handlers r) "default") = true) by reflexivity.
  split; [split; assumption|].
  rewrite (hono_default_handler_all_methods r H1 H2). reflexivity.
Defined.


Lemma express_each_method_once_witness :
  let r := set_handlers (parseRouteFile "/srv/routes/users.route.ts" "/srv/routes")
                        (handlers_of_module get_post_default_module) in
  (isMiddleware r = false /\ truthy (get (handlers r) "default") = true /\
   In "POST" route_methods /\ In "HEAD" route_methods) /\
  calls_for_method "post" (flat_map express_call (route_calls expressAdapter r))
    = [AppMethod "post" "/users" (JFun 2)] /\
  calls_for_method "head" (flat_map express_call (route_calls expressAdapter r))
    = [AppMethod "head" "/users" (JFun 3)].
Proof.
  intros r.
  assert (H1 : isMiddleware r = false) by reflexivity.
  assert (H2 : truthy (get (handlers r) "default") = true) by reflexivity.
  assert (H3 : In "POST" route_methods) by (right; left; reflexivity).
  assert (H4 : In "HEAD" route_methods) by (simpl; tauto).
  split; [split; [assumption|split; [assumption|split; assumption]]|]. split.
  - exact (express_each_method_once r H1 H2 "POST" H3).
  - exact (express_each_method_once r H1 H2 "HEAD" H4).
Defined.

Lemma route_path_double_slash_witness :
  includes "//" (path (parseRouteFile "/srv/routes/[...all].route.ts" "/srv/routes")) = true /\
  path (parseRouteFile "/srv/routes/[...all].route.ts" "/srv/routes") = "//*".
Proof.
  assert (H : includes "//" (path (parseRouteFile "/srv/routes/[...all].route.ts" "/srv/routes"))
              = true) by reflexivity.
  split; [exact H|].
  exact (route_path_double_slash "/srv/routes/[...all].route.ts" "/srv/routes" H).
Defined.

Lemma createRouter_import_failure_witness :
  let root := [File "auth.middleware.ts"; File "posts.route.ts"] in
  let auth := parseRouteFile "/srv/routes/auth.middleware.ts" "/srv/routes" in
  let posts := parseRouteFile "/srv/routes/posts.route.ts" "/srv/routes" in
  (parseRoutes length_compare "/" "/srv/routes" root = app [auth] (posts :: []) /\
   Forall (fun r => auth_users_modules (importPath r) <> None) [auth] /\
   auth_users_modules (importPath posts) = None) /\
  createRouter length_compare auth_users_modules (mkAdapter (fun p => p)) "/" "/srv/routes" root
  = ([RegisterMiddleware "/auth" (JFun 1)], false).
Proof.
  intros root auth posts.
  assert (H1 : parseRoutes length_compare "/" "/srv/routes" root = app [auth] (posts :: []))
    by reflexivity.
  assert (H2 : Forall (fun r => auth_users_modules (importPath r) <> None) [auth])
    by (constructor; [simpl; discriminate|constructor]).
  assert (H3 : auth_users_modules (importPath posts) = None) by reflexivity.
  split; [split; [exact H1|split; [exact H2|exact H3]]|].
  rewrite (proj2 (createRouter_import_failure length_compare auth_users_modules
                    (mkAdapter (fun p => p)) "/" "/srv/routes" root) [auth] posts [] H1 H2 H3).
  reflexivity.
Defined.

Lemma method_registrations_app : forall a b,
  method_registrations (app a b) = app (method_registrations a) (method_registrations b).
Proof. intros a b. unfold method_registrations. apply flat_map_app. Qed.

Lemma method_registrations_on : forall p h ms,
  method_registrations (map (fun m => AppOn m p h) ms) = [].
Proof. intros p h ms. induction ms as [|m ms IH]; simpl; auto. Qed.

(** X13 (Hono never gets [app.head]).  Whatever calls it receives,
    [HonoAdapter] never calls [app[m](path, ...)] with [m = 'head']: a HEAD
    route goes through [app.on('HEAD', ...)]. *)
Theorem hono_never_app_head : forall calls,
  ~ In "head" (method_registrations (flat_map hono_call calls)).
Proof.
  induction calls as [|c calls IH]; simpl; [tauto|].
  rewrite method_registrations_app, in_app_iff. intros [H|H]; [|exact (IH H)].
  destruct c as [p h|m p h|p h rm]; simpl in H.
  - exact H.
  - destruct (String.eqb (toLowerCase m) "head") eqn:E; simpl in H; [exact H|].
    destruct H as [H|H]; [|exact H]. rewrite H in E. discriminate.
  - destruct rm as [|x rm]; simpl in H; [exact H|].
    rewrite method_registrations_on in H. exact H.
Qed.
